(** * mempool.radio: the dispatch and mapping core

    A shallow embedding of the three TypeScript units of the repository:

    - [Visualizer]  : the particle engine ([getHueFromFeeRate],
                      [addTransaction], the bubble loop of [render]);
    - [AudioEngine] : services/audioEngine.ts ([getFrequencyFromValue],
                      [playTransaction], [playBlockConfirm] and the voices
                      they create);
    - [App]         : the beat dispatcher ([handleNewTransaction],
                      [processNextTransaction]).

    Around them: [Frames] and [Session] (sessions of the particle engine
    and of the dispatcher), [Setup] ([init] and [startShaker] of the audio
    engine), [Socket] ([normalizeTx] and the reconnecting
    [MempoolSocket]) and [Header] ([formatTime]).

    Conventions of the embedding.

    - A JavaScript [number] that the code computes with is a real number
      ([R]): [Math.max], [Math.min], [Math.sqrt], [Math.floor] and
      [Math.log10] are the exact real functions, so rounding of binary64
      arithmetic is not modelled; [Binary64] evaluates the two visual
      mappings on floating-point numbers.  A count (an array length, the
      beat index) is an integer ([Z]).
    - A field that may be [undefined] is an [option].
    - Where the code leaves the real numbers, the functions are stated on
      the arguments on which it does not: the radius of a bubble for a
      value that is not negative (the square root of a negative number is
      [NaN]), [toString] for an integer that is printed with all its
      digits, [playTransaction] for a value that is not [NaN].
    - [Math.random()] is an explicit argument: one real in [[0,1)] per call
      site, so every function below is deterministic in its arguments.
    - Audio nodes and canvas drawing are effects on the host.  A voice that
      the engine creates is returned as a [Voice] descriptor; drawing calls
      of [render] change no bubble and are left out. *)

From Stdlib Require Import Floats.
From Stdlib Require Import Reals Lra Lia ZArith List Bool String Zfloor Sorted.
From Stdlib Require Import DecimalString DecimalPos.
Import ListNotations.

Open Scope R_scope.

(** ** JavaScript values used by the code *)

Module JS.

(** Comparison operators as booleans. *)
Definition leb (x y : R) : bool := if Rle_dec x y then true else false.
Definition ltb (x y : R) : bool := if Rlt_dec x y then true else false.
Definition geb (x y : R) : bool := leb y x.
Definition gtb (x y : R) : bool := ltb y x.

(** Truthiness of a number: every number but zero. *)
Definition truthy (x : R) : bool := if Req_dec_T x 0 then false else true.

(** [x || alt] where [x] is a number. *)
Definition or_else (x alt : R) : R := if truthy x then x else alt.

(** [x || alt] where [x] is a number or [undefined]. *)
Definition opt_or_else (x : option R) (alt : R) : R :=
  match x with
  | Some v => or_else v alt
  | None => alt
  end.

(** [x || alt] where [x] is a string or [undefined]: the empty string and
    [undefined] are falsy. *)
Definition str_or_else (x : option string) (alt : option string)
  : option string :=
  match x with
  | Some EmptyString => alt
  | Some s => Some s
  | None => alt
  end.

(** The result of a division whose divisor may be zero or [undefined]. *)
Inductive number : Type :=
| Num (r : R)
| Infinity (negative : bool)
| NaN.

Definition number_truthy (x : number) : bool :=
  match x with
  | Num r => truthy r
  | Infinity _ => true
  | NaN => false
  end.

(** [a / b] for a non-zero number [a] and [b] a number or [undefined]. *)
Definition div (a : R) (b : option R) : number :=
  match b with
  | None => NaN
  | Some d =>
      if truthy d then Num (a / d)
      else if truthy a then Infinity (ltb a 0)
      else NaN
  end.

(** [Math.log10] on positive numbers. *)
Definition log10 (x : R) : R := ln x / ln 10.

(** [Math.floor]. *)
Definition floor (x : R) : Z := Zfloor x.

(** [a[i]] for an integer [i]: [undefined] outside the array. *)
Definition index {A : Type} (a : list A) (i : Z) : option A :=
  if (i <? 0)%Z then None else nth_error a (Z.to_nat i).

(** [a.length]. *)
Definition length {A : Type} (a : list A) : Z := Z.of_nat (List.length a).

(** [a.splice(0, n)] on the array left behind. *)
Definition splice0 {A : Type} (n : nat) (a : list A) : list A := skipn n a.

(** [a.splice(i, 1)] on the array left behind. *)
Definition splice1 {A : Type} (i : nat) (a : list A) : list A :=
  firstn i a ++ skipn (S i) a.

(** [a[i] = v] for [i] inside the array. *)
Fixpoint store {A : Type} (i : nat) (v : A) (a : list A) : list A :=
  match a, i with
  | [], _ => []
  | _ :: t, O => v :: t
  | h :: t, S j => h :: store j v t
  end.

End JS.

(** ** The particle engine *)

Module Visualizer.

Record Bubble : Type := mkBubble {
  id : option string;
  x : R;
  y : R;
  radius : R;
  vx : R;
  vy : R;
  baseHue : R;
  alpha : R;
  life : R;
  value : R;
  feeRate : R;
  noiseOffsets : list R;
  isWhale : bool;
  pulseOffset : R
}.

Record Canvas : Type := mkCanvas { width : R; height : R }.

(** The refs of the component that the imperative handle and the frame
    loop share. *)
Record State : Type := mkState {
  bubbles : list Bubble;
  flashAlpha : R;
  avgFeeRate : R
}.

Definition getHueFromFeeRate (feeRate : R) : R :=
  if Rle_dec feeRate 1 then 210
  else if Rle_dec feeRate 50 then 210 - (feeRate / 50) * 70
  else if Rle_dec feeRate 150 then 140 - ((feeRate - 50) / 100) * 95
  else Rmax 0 (45 - ((feeRate - 150) / 250) * 45).

(** The locals [btc], [radius] and [isWhale] of [addTransaction].

    [radius_of] is the radius of the code for a value that is not
    negative.  For a negative value [Math.sqrt] returns [NaN] and so do
    the clamp and the radius of the code, where the real [sqrt] is 0: the
    properties of the radius below are stated for values from 0 on. *)
Definition btc_of (value : R) : R := value / 100000000.

Definition radius_of (value : R) : R :=
  Rmax 20 (Rmin 180 (sqrt (btc_of value * 30000) + 30)).

Definition isWhale_of (value : R) : bool := JS.geb (btc_of value) 1.

(** The argument of [addTransaction]. *)
Record Tx : Type := mkTx {
  tx_id : option string;
  tx_value : R;
  tx_feeRate : R
}.

(** The [Math.random()] calls of one [addTransaction], in [[0,1)]. *)
Record SpawnDraws : Type := mkSpawnDraws {
  rnd_noise : list R;   (* one per vertex, [numVertices] = 14 *)
  rnd_id : string;      (* [Math.random().toString()] *)
  rnd_x : R;
  rnd_vx : R;
  rnd_vy : R;
  rnd_pulse : R
}.

Definition numVertices : nat := 14.

Definition addTransaction (canvas : option Canvas) (d : SpawnDraws)
    (tx : Tx) (s : State) : State :=
  let radius := radius_of (tx_value tx) in
  let isWhale := isWhale_of (tx_value tx) in
  match canvas with
  | None => s
  | Some canvas =>
      let noiseOffsets :=
        map (fun r => r * PI * 2) (firstn numVertices (rnd_noise d)) in
      let b := {|
        id := JS.str_or_else (tx_id tx) (Some (rnd_id d));
        x := rnd_x d * width canvas;
        y := height canvas + radius * 2;
        radius := radius;
        vx := (rnd_vx d - 0.5) * 0.7;
        vy := if isWhale then - (rnd_vy d * 0.2 + 0.1)
              else - (rnd_vy d * 1.5 + 0.4);
        baseHue := getHueFromFeeRate (tx_feeRate tx);
        alpha := 0.85;
        life := 1.0;
        value := tx_value tx;
        feeRate := tx_feeRate tx;
        noiseOffsets := noiseOffsets;
        isWhale := isWhale;
        pulseOffset := rnd_pulse d * 1000
      |} in
      {| bubbles := bubbles s ++ [b];
         flashAlpha := flashAlpha s;
         avgFeeRate := avgFeeRate s * 0.98 + tx_feeRate tx * 0.02 |}
  end.

Definition flashBlock (s : State) : State :=
  {| bubbles := bubbles s; flashAlpha := 1.0; avgFeeRate := avgFeeRate s |}.

(** The mutation of one bubble in the body of the frame loop, at frame
    time [time]. *)
Definition drift (time : R) (b : Bubble) : Bubble :=
  let x' := x b + (vx b + sin (time * 0.5 + pulseOffset b) * 0.4) in
  let y' := y b + vy b in
  let life' := life b - 0.0007 in
  {| id := id b; x := x'; y := y'; radius := radius b;
     vx := vx b; vy := vy b; baseHue := baseHue b;
     alpha := Rmin 0.9 (life' * 3);
     life := life';
     value := value b; feeRate := feeRate b;
     noiseOffsets := noiseOffsets b; isWhale := isWhale b;
     pulseOffset := pulseOffset b |}.

(** The test that ends the loop body:
    [b.life <= 0 || b.y + b.radius * 3 < 0]. *)
Definition expired (b : Bubble) : bool :=
  JS.leb (life b) 0 || JS.ltb (y b + radius b * 3) 0.

(** The hover test of the loop body. *)
Definition hovers (mouse : R * R) (b : Bubble) : bool :=
  let dx := x b - fst mouse in
  let dy := y b - snd mouse in
  JS.ltb (sqrt (dx * dx + dy * dy)) (radius b).

(** [for (let i = bubbles.length - 1; i >= 0; i--)]: [render_loop n]
    runs the iterations [i = n-1, ..., 0] on the array and the current
    hover. *)
Fixpoint render_loop (time : R) (mouse : R * R) (n : nat)
    (bs : list Bubble) (currentHover : option Bubble)
  : list Bubble * option Bubble :=
  match n with
  | O => (bs, currentHover)
  | S i =>
      match nth_error bs i with
      | None => render_loop time mouse i bs currentHover
      | Some b =>
          let b' := drift time b in
          let currentHover :=
            if hovers mouse b' then Some b' else currentHover in
          let bs' :=
            if expired b' then JS.splice1 i bs else JS.store i b' bs in
          render_loop time mouse i bs' currentHover
      end
  end.

(** The bubbles after one [render] pass. *)
Definition render_bubbles (time : R) (mouse : R * R) (bs : list Bubble)
  : list Bubble :=
  fst (render_loop time mouse (List.length bs) bs None).

(** One [render] pass on the shared state: the bubble loop, the hovered
    bubble handed to [setHoveredTx] ([isOverCanvas] tells whether the
    pointer is over the canvas), then the decay of the block flash. *)
Definition render (time : R) (mouse : R * R) (isOverCanvas : bool)
    (s : State) : State * option Bubble :=
  let '(bs, currentHover) :=
    render_loop time mouse (List.length (bubbles s)) (bubbles s) None in
  ({| bubbles := bs;
      flashAlpha :=
        if Rlt_dec 0 (flashAlpha s) then flashAlpha s - 0.008
        else flashAlpha s;
      avgFeeRate := avgFeeRate s |},
   if isOverCanvas then currentHover else None).

(** A bubble that the loop body keeps. *)
Definition survives (b : Bubble) : bool := negb (expired b).

End Visualizer.

(** ** The audio engine (services/audioEngine.ts) *)

Module AudioEngine.

Inductive ContextState : Type := suspended | running | closed.

Definition is_running (s : ContextState) : bool :=
  match s with
  | running => true
  | _ => false
  end.

Record AudioContext : Type := mkAudioContext {
  state : ContextState;
  currentTime : R
}.

(** The private fields of the class.  A node field holds [Some] once
    [init] has created the node; for the master gain the value is its
    gain. *)
Record Engine : Type := mkEngine {
  ctx : option AudioContext;
  masterGain : option R;
  reverb : option unit;
  delay : option unit;
  delayFeedback : option unit;
  isShakerStarted : bool
}.

Inductive OscillatorType : Type := sine | triangle.

(** One oscillator with its gain envelope, as the [create...] methods
    build it: silent at [t_start], ramped linearly to [peak] at
    [t_peak], exponentially to 0.001 at [t_release], stopped at
    [t_stop]; connected to the master gain and, when [to_reverb], to the
    reverb as well. *)
Record Voice : Type := mkVoice {
  osc_type : OscillatorType;
  frequency : R;
  peak : R;
  t_start : R;
  t_peak : R;
  t_release : R;
  t_stop : R;
  to_reverb : bool
}.

(** How a call ends: it returns, or a [TypeError] of the host escapes
    it. *)
Inductive Completion : Type := Returned | Thrown.

(** What a call leaves behind: the engine, the voices it started, and
    how it ended. *)
Record Result : Type := mkResult {
  engine : Engine;
  voices : list Voice;
  completion : Completion
}.

(** Mixolydian scale (G major with a flat 7th). *)
Definition DRUM_FREQUENCIES : list R :=
  [196.00; 220.00; 246.94; 261.63; 293.66; 329.63; 349.23; 392.00;
   440.00; 493.88; 523.25; 587.33; 659.25; 698.46; 783.99; 880.00].

(** The locals [ratio] and [index] of [getFrequencyFromValue]. *)
Definition ratioOf (btcValue low high : R) : R :=
  let clampedVal := Rmax low (Rmin high btcValue) in
  let logMin := JS.log10 low in
  let logMax := JS.log10 high in
  let logVal := JS.log10 clampedVal in
  (logVal - logMin) / (logMax - logMin).

Definition frequencyIndex (btcValue low high : R) : Z :=
  let ratio := ratioOf btcValue low high in
  JS.floor ((1 - ratio) * (IZR (JS.length DRUM_FREQUENCIES) - 1)).

(** [None] is [undefined]. *)
Definition getFrequencyFromValue (btcValue low high : R) : option R :=
  JS.index DRUM_FREQUENCIES (frequencyIndex btcValue low high).

(** The chime: four notes, 0.1 apart. *)
Definition chimeVoice (now : R) (i : nat) (f : R) : Voice :=
  let t := now + INR i * 0.1 in
  {| osc_type := sine; frequency := f; peak := 0.2;
     t_start := t; t_peak := t + 0.05; t_release := t + 1.5;
     t_stop := t + 1.6; to_reverb := false |}.

Fixpoint mapi {A B : Type} (f : nat -> A -> B) (i : nat) (l : list A)
  : list B :=
  match l with
  | [] => []
  | a :: t => f i a :: mapi f (S i) t
  end.

(** [env.connect(this.masterGain!)] raises a [TypeError] on a missing
    master gain, in the first iteration, before any oscillator starts. *)
Definition playStartupChime (e : Engine) : Result :=
  match ctx e with
  | None => mkResult e [] Returned
  | Some c =>
      match masterGain e with
      | None => mkResult e [] Thrown
      | Some _ =>
          mkResult e
            (mapi (chimeVoice (currentTime c)) 0 [196; 246.94; 293.66; 392])
            Returned
      end
  end.

Definition organVoice (now freq : R) (i : nat) (ratio : R) : Voice :=
  let duration := 0.15 in
  let vol := 0.08 in
  {| osc_type := match i with O => triangle | _ => sine end;
     frequency := freq * ratio;
     peak := vol / (INR i + 1);
     t_start := now; t_peak := now + 0.01; t_release := now + duration;
     t_stop := now + duration + 0.1; to_reverb := false |}.

Definition createOrganSkank (e : Engine) (freq : R) : list Voice :=
  match ctx e, masterGain e with
  | Some c, Some _ => mapi (organVoice (currentTime c) freq) 0 [1; 2; 1.5]
  | _, _ => []
  end.

Definition createWhaleStrike (e : Engine) (btcValue : R) : list Voice :=
  match ctx e, masterGain e with
  | Some c, Some _ =>
      let now := currentTime c in
      let baseFreq := 49.00 in
      let duration := 5.0 in
      let volume := 0.4 in
      [ {| osc_type := sine; frequency := baseFreq; peak := volume;
           t_start := now; t_peak := now + 0.1;
           t_release := now + duration; t_stop := now + duration + 0.1;
           to_reverb := false |} ]
  | _, _ => []
  end.

(** The three pitched strikes take the frequency that
    [getFrequencyFromValue] returned; [setValueAtTime] raises a
    [TypeError] on [undefined] (and on [undefined * 2]). *)
Definition createUkulelePluck (e : Engine) (freq : option R)
    (btcValue : R) : list Voice * Completion :=
  match ctx e, masterGain e with
  | Some c, Some _ =>
      let now := currentTime c in
      let volume := 0.1 + btcValue * 10 in
      let duration := 0.4 in
      match freq with
      | None => ([], Thrown)
      | Some freq =>
          ([ {| osc_type := triangle; frequency := freq * 2;
                peak := volume;
                t_start := now; t_peak := now + 0.005;
                t_release := now + duration;
                t_stop := now + duration + 0.1;
                to_reverb := false |} ], Returned)
      end
  | _, _ => ([], Returned)
  end.

Definition createMarimbaStrike (e : Engine) (freq : option R)
    (btcValue : R) : list Voice * Completion :=
  match ctx e, masterGain e with
  | Some c, Some _ =>
      let now := currentTime c in
      let volume := 0.15 + btcValue * 3 in
      let duration := 0.8 in
      match freq with
      | None => ([], Thrown)
      | Some freq =>
          ([ {| osc_type := sine; frequency := freq; peak := volume;
                t_start := now; t_peak := now + 0.005;
                t_release := now + duration;
                t_stop := now + duration + 0.1;
                to_reverb := false |} ], Returned)
      end
  | _, _ => ([], Returned)
  end.

Definition createSteelDrumStrike (e : Engine) (freq : option R)
    (btcValue : R) : list Voice * Completion :=
  match ctx e, masterGain e with
  | Some c, Some _ =>
      let now := currentTime c in
      let duration := 1.5 in
      let volume := 0.2 + sqrt btcValue * 0.1 in
      match freq with
      | None => ([], Thrown)
      | Some freq =>
          ([ {| osc_type := triangle; frequency := freq; peak := volume;
                t_start := now; t_peak := now + 0.01;
                t_release := now + duration;
                t_stop := now + duration + 0.1;
                to_reverb := match reverb e with
                             | Some _ => true
                             | None => false
                             end |} ], Returned)
      end
  | _, _ => ([], Returned)
  end.

(** The instrument that [playTransaction] picks for a value in BTC. *)
Inductive Tier : Type := Whale | SteelDrum | Marimba | Pluck.

Definition tierOf (btcValue : R) : option Tier :=
  if JS.leb btcValue 0 then None
  else if JS.geb btcValue 1.0 then Some Whale
  else if JS.geb btcValue 0.1 then Some SteelDrum
  else if JS.geb btcValue 0.01 then Some Marimba
  else Some Pluck.

(** The voice of a tier: the branches of [playTransaction] after the
    skank. *)
Definition strike (e : Engine) (btcValue : R) (t : Tier)
  : list Voice * Completion :=
  match t with
  | Whale => (createWhaleStrike e btcValue, Returned)
  | SteelDrum =>
      let freq := getFrequencyFromValue btcValue 0.1 1.0 in
      createSteelDrumStrike e freq btcValue
  | Marimba =>
      let freq := getFrequencyFromValue btcValue 0.01 0.1 in
      createMarimbaStrike e freq btcValue
  | Pluck =>
      let freq := getFrequencyFromValue btcValue 0.00001 0.01 in
      createUkulelePluck e freq btcValue
  end.

Definition isSkankBeat (beatPos : Z) : bool :=
  existsb (Z.eqb (Z.rem beatPos 16)) [4; 12]%Z.

(** [rnd] is the [Math.random()] of the skank test; it is drawn only
    when the beat is a skank beat and the value is not positive. *)
Definition playTransaction (e : Engine) (rnd : R) (valueSats : R)
    (beatPos : Z) : Result :=
  match ctx e with
  | None => mkResult e [] Returned
  | Some c =>
      if negb (is_running (state c)) then mkResult e [] Returned
      else
        let btcValue := valueSats / 100000000 in
        let skank :=
          if isSkankBeat beatPos && (JS.gtb btcValue 0 || JS.ltb rnd 0.3)
          then createOrganSkank e 392.00
          else [] in
        match tierOf btcValue with
        | None => mkResult e skank Returned
        | Some t =>
            let (vs, k) := strike e btcValue t in
            mkResult e (skank ++ vs) k
        end
  end.

Definition playBlockConfirm (e : Engine) : Result :=
  match ctx e, masterGain e with
  | Some _, Some _ => playStartupChime e
  | _, _ => mkResult e [] Returned
  end.

(** The guard of [playTransaction] holds: the context is absent or not in
    the running state. *)
Definition notRunning (e : Engine) : Prop :=
  match ctx e with
  | None => True
  | Some c => state c <> running
  end.

(** The engine after a successful [init]: a running context and a master
    gain. *)
Definition ready (e : Engine) : Prop :=
  match ctx e, masterGain e with
  | Some c, Some _ => state c = running
  | _, _ => False
  end.


End AudioEngine.

(** ** The beat dispatcher (the App component) *)

Module App.

(** A transaction as the socket delivers it to [handleNewTransaction];
    every field may be missing. *)
Record RawTx : Type := mkRawTx {
  txid : option string;
  id : option string;
  value : option R;
  vsize : option R;
  fee : option R;
  feeRate : option R
}.

(** An entry of [txQueue]: [{ ...tx, value, feeRate }]. *)
Record QueuedTx : Type := mkQueuedTx {
  q_txid : option string;
  q_id : option string;
  q_value : R;
  q_vsize : option R;
  q_fee : option R;
  q_feeRate : JS.number
}.

(** The refs and the state that the two callbacks use. *)
Record State : Type := mkState {
  txQueue : list QueuedTx;
  beatIndex : Z;
  isAudioStarted : bool;
  count : Z                      (* [mempoolStats.count] *)
}.

Definition BASE_INTERVAL : R := 200.

(** The object that [handleNewTransaction] pushes:
    [{ ...tx, value, feeRate }] with the two defaulted fields. *)
Definition queued (tx : RawTx) : QueuedTx :=
  let value :=
    JS.opt_or_else (value tx)
      match vsize tx with
      | Some vs => if JS.truthy vs then vs * 120 else 10000
      | None => 10000
      end in
  let computed :=
    match fee tx with
    | Some f => if JS.truthy f then JS.div f (vsize tx) else JS.Num 1
    | None => JS.Num 1
    end in
  let feeRate :=
    match feeRate tx with
    | Some r => if JS.truthy r then JS.Num r else computed
    | None => computed
    end in
  {| q_txid := txid tx; q_id := id tx; q_value := value;
     q_vsize := vsize tx; q_fee := fee tx; q_feeRate := feeRate |}.

Definition handleNewTransaction (tx : RawTx) (s : State) : State :=
  let pushed := txQueue s ++ [queued tx] in
  {| txQueue :=
       if (5000 <? JS.length pushed)%Z then JS.splice0 500 pushed
       else pushed;
     beatIndex := beatIndex s;
     isAudioStarted := isAudioStarted s;
     count := (count s + 1)%Z |}.

(** The calls that one tick makes on the audio engine and on the
    visualizer handle. *)
Inductive Call : Type :=
| PlayTransaction (valueSats : R) (beatPos : Z)
| AddTransaction (id : option string) (value : R) (feeRate : JS.number).

(** The [Math.random()] calls of one tick, in [[0,1)]: [rnd_play] for
    [shouldPlay], [rnd_ghost] for the ghost note. *)
Record Draws : Type := mkDraws { rnd_play : R; rnd_ghost : R }.

Record Tick : Type := mkTick {
  next : State;
  calls : list Call;
  stepDuration : R               (* the delay given to [setTimeout] *)
}.

(** [mounted] tells whether [visualizerRef.current] is set. *)
Definition processNextTransaction (mounted : bool) (d : Draws) (s : State)
  : Tick :=
  let qLen := JS.length (txQueue s) in
  let isEvenBeat := (Z.rem (beatIndex s) 2 =? 0)%Z in
  let swingFactor := if (100 <? qLen)%Z then 1.8 else 1.4 in
  let stepDuration :=
    if isEvenBeat then BASE_INTERVAL * swingFactor
    else BASE_INTERVAL * (2 - swingFactor) in
  let congestionSpeedUp := Rmin 2.5 (1 + IZR qLen / 150) in
  let stepDuration := stepDuration / congestionSpeedUp in
  let stepDuration := Rmax 40 stepDuration in
  let isStrongBeat := (Z.rem (beatIndex s) 4 =? 0)%Z in
  let probability := if isStrongBeat then 0.95 else 0.6 in
  let shouldPlay := (0 <? qLen)%Z && JS.ltb (rnd_play d) probability in
  let '(queue, calls) :=
    if shouldPlay then
      match txQueue s with
      | [] => ([], [])
      | tx :: rest =>
          let value := JS.or_else (q_value tx) 0 in
          let feeRate :=
            if JS.number_truthy (q_feeRate tx) then q_feeRate tx
            else JS.Num 1 in
          (rest,
           PlayTransaction value (beatIndex s)
           :: (if mounted
               then [AddTransaction (JS.str_or_else (q_txid tx) (q_id tx))
                       value feeRate]
               else []))
      end
    else if isEvenBeat && isAudioStarted s && JS.ltb (rnd_ghost d) 0.2
    then (txQueue s, [PlayTransaction 0 (beatIndex s)])
    else (txQueue s, []) in
  {| next := {| txQueue := queue;
                beatIndex := Z.rem (beatIndex s + 1) 16;
                isAudioStarted := isAudioStarted s;
                count := count s |};
     calls := calls;
     stepDuration := stepDuration |}.

(** The component starts with an empty queue on beat 0. *)
Definition initial : State :=
  {| txQueue := []; beatIndex := 0; isAudioStarted := false; count := 0 |}.

(** [startAudio], after the engine's [init]: the state of the component
    records that the audio has started. *)
Definition startAudio (s : State) : State :=
  {| txQueue := txQueue s;
     beatIndex := beatIndex s;
     isAudioStarted := true;
     count := count s |}.

(** What happens over a session: transactions arrive, the dispatcher
    ticks and the listener starts the audio, in any order. *)
Inductive Event : Type :=
| Arrives (tx : RawTx)
| Ticks (mounted : bool) (d : Draws)
| StartsAudio.

Definition step (s : State) (ev : Event) : State :=
  match ev with
  | Arrives tx => handleNewTransaction tx s
  | Ticks mounted d => next (processNextTransaction mounted d s)
  | StartsAudio => startAudio s
  end.

Definition run (evs : list Event) (s : State) : State :=
  fold_left step evs s.

(** The voices that a call of the dispatcher starts on an engine;
    [rnd] is the draw of the skank test. *)
Definition sound (e : AudioEngine.Engine) (rnd : R) (c : Call)
  : list AudioEngine.Voice :=
  match c with
  | PlayTransaction v p =>
      AudioEngine.voices (AudioEngine.playTransaction e rnd v p)
  | AddTransaction _ _ _ => []
  end.

(** The step duration as the specification words it. *)
Definition spec_stepDuration (base : R) (qLen b : Z) : R :=
  let swingFactor := if (qLen >? 100)%Z then 1.8 else 1.4 in
  let raw := if Z.even b then base * swingFactor
             else base * (2 - swingFactor) in
  Rmax 40 (raw / Rmin 2.5 (1 + IZR qLen / 150)).

(** The assumption on ingested records: a number that is present is not
    negative. *)
Definition nonNegative (x : option R) : Prop :=
  match x with
  | Some v => 0 <= v
  | None => True
  end.

Definition plausible (tx : RawTx) : Prop :=
  nonNegative (value tx) /\ nonNegative (vsize tx).

Definition plausibleEvent (ev : Event) : Prop :=
  match ev with
  | Arrives tx => plausible tx
  | Ticks _ _ => True
  | StartsAudio => True
  end.

(** Every queued transaction carries a positive value. *)
Definition all_positive (q : list QueuedTx) : Prop :=
  Forall (fun tx => 0 < q_value tx) q.

End App.

(** ** The two visual mappings on binary64

    The same two functions on the floating-point numbers that the program
    runs on, to evaluate them at the inputs where the properties below
    differ from the specification. *)

Module Binary64.

(** [Math.max] and [Math.min] of two numbers: [NaN] if either is. *)
Definition max (a b : float) : float :=
  if PrimFloat.is_nan a then a
  else if PrimFloat.is_nan b then b
  else if PrimFloat.ltb a b then b else a.

Definition min (a b : float) : float :=
  if PrimFloat.is_nan a then a
  else if PrimFloat.is_nan b then b
  else if PrimFloat.ltb b a then b else a.

Definition getHueFromFeeRate (feeRate : float) : float :=
  (if PrimFloat.leb feeRate 1 then 210
   else if PrimFloat.leb feeRate 50 then 210 - (feeRate / 50) * 70
   else if PrimFloat.leb feeRate 150 then 140 - ((feeRate - 50) / 100) * 95
   else max 0 (45 - ((feeRate - 150) / 250) * 45))%float.

Definition radius_of (value : float) : float :=
  (let btc := value / 100000000 in
   max 20 (min 180 (PrimFloat.sqrt (btc * 30000) + 30)))%float.

End Binary64.

(** ** Sample inputs *)

Module Samples.


(** The engine of a page whose audio context the browser has suspended. *)
Definition suspendedEngine : AudioEngine.Engine :=
  {| AudioEngine.ctx :=
       Some {| AudioEngine.state := AudioEngine.suspended;
               AudioEngine.currentTime := 0 |};
     AudioEngine.masterGain := Some 0.5;
     AudioEngine.reverb := Some tt;
     AudioEngine.delay := Some tt;
     AudioEngine.delayFeedback := Some tt;
     AudioEngine.isShakerStarted := true |}.

(** A transaction of 1000 satoshis. *)
Definition smallTx : App.RawTx :=
  {| App.txid := Some "a"%string; App.id := None;
     App.value := Some 1000; App.vsize := Some 140;
     App.fee := Some 280; App.feeRate := None |}.

(** A transaction without a value. *)
Definition bareTx : App.RawTx :=
  {| App.txid := Some "b"%string; App.id := None;
     App.value := None; App.vsize := Some 200;
     App.fee := None; App.feeRate := None |}.

(** A state whose queue holds [n] transactions. *)
Definition backlog (n : Z) : App.State :=
  {| App.txQueue := repeat (App.queued smallTx) (Z.to_nat n);
     App.beatIndex := 4;
     App.isAudioStarted := true;
     App.count := n |}.

Definition alwaysPlay : App.Draws :=
  {| App.rnd_play := 0; App.rnd_ghost := 0 |}.



(** A session in which one transaction without a value arrives. *)
Definition oneArrival : list App.Event := [App.Arrives bareTx].


End Samples.

(** ** Sessions of the particle engine *)

Module Frames.

Import Visualizer.

(** The refs of a newly mounted component. *)
Definition initial : State :=
  {| bubbles := []; flashAlpha := 0; avgFeeRate := 1 |}.

(** What happens to the particle engine over a session: the handle is
    called and frames are rendered, in any order. *)
Inductive Op : Type :=
| Spawn (canvas : option Canvas) (d : SpawnDraws) (tx : Tx)
| Frame (time : R) (mouse : R * R) (isOverCanvas : bool)
| Flash.

Definition apply (s : State) (op : Op) : State :=
  match op with
  | Spawn canvas d tx => addTransaction canvas d tx s
  | Frame time mouse over => fst (render time mouse over s)
  | Flash => flashBlock s
  end.

Definition run (ops : list Op) (s : State) : State := fold_left apply ops s.

(** The bubbles after the frames of [frames], a frame time and a pointer
    position each. *)
Definition passes (frames : list (R * (R * R))) (bs : list Bubble)
  : list Bubble :=
  fold_left (fun bs f => render_bubbles (fst f) (snd f) bs) frames bs.

(** The locals [congestionIntensity] and [bgColor] of [render]; the
    colour as its red, green and blue components. *)
Definition congestionIntensity (s : State) : R :=
  Rmin 1 (avgFeeRate s / 300).

Definition bgColor (s : State) : R * R * R :=
  let congestionIntensity := congestionIntensity s in
  (6 + congestionIntensity * 35, 10 + congestionIntensity * 5, 20).

(** The outline of a bubble: the locals [noiseFactor], [currentRadius]
    and [(px, py)] of the vertex loop, for the vertex [j] of a bubble
    with at least one vertex. *)
Definition noiseFactor (time : R) (b : Bubble) (j : nat) : R :=
  let numV := List.length (noiseOffsets b) in
  let idx := (j mod numV)%nat in
  sin (time * 1.5 + nth idx (noiseOffsets b) 0) * 0.12
  + cos (time * 0.8 + nth ((idx + 3) mod numV)%nat (noiseOffsets b) 0) * 0.08.

Definition currentRadius (time : R) (b : Bubble) (j : nat) : R :=
  radius b * (1 + noiseFactor time b j).

Definition vertex (time : R) (b : Bubble) (j : nat) : R * R :=
  let numV := List.length (noiseOffsets b) in
  let angle := INR j / INR numV * PI * 2 in
  (x b + cos angle * currentRadius time b j,
   y b + sin angle * currentRadius time b j).

(** The draws of a spawn are in [[0,1)], one per vertex. *)
Definition unitDraws (d : SpawnDraws) : Prop :=
  0 <= rnd_vy d < 1 /\ 0 <= rnd_vx d < 1 /\ 0 <= rnd_x d < 1.

(** A session in which every canvas has a height that is not negative
    and every spawn has a value that is not negative and takes its draws
    from [[0,1)]. *)
Definition sane (op : Op) : Prop :=
  match op with
  | Spawn canvas d tx =>
      0 <= tx_value tx
      /\ unitDraws d
      /\ match canvas with
         | Some c => 0 <= height c
         | None => True
         end
  | _ => True
  end.

(** The fee rates that a session hands to [addTransaction] lie between
    [lo] and [hi]. *)
Definition feesWithin (lo hi : R) (op : Op) : Prop :=
  match op with
  | Spawn _ _ tx => lo <= tx_feeRate tx <= hi
  | _ => True
  end.

(** The number of rendered frames in a session. *)
Definition frames_in (ops : list Op) : nat :=
  List.length (filter (fun op => match op with
                                 | Frame _ _ _ => true
                                 | _ => false
                                 end) ops).

(** A session without a block flash. *)
Definition notFlash (op : Op) : Prop :=
  match op with
  | Flash => False
  | _ => True
  end.

(** What holds of every live bubble: its value is not negative, its
    derived fields are those of its value and fee rate, it has life left,
    it rises, a whale slower than the others, and it has not left the
    canvas at the top. *)
Definition healthy (b : Bubble) : Prop :=
  0 <= value b
  /\ radius b = radius_of (value b)
  /\ isWhale b = isWhale_of (value b)
  /\ baseHue b = getHueFromFeeRate (feeRate b)
  /\ 0 < life b <= 1
  /\ 0 < alpha b <= 0.9
  /\ (if isWhale b then -0.3 < vy b <= -0.1 else -1.9 < vy b <= -0.4)
  /\ -0.35 <= vx b < 0.35
  /\ 0 <= y b + radius b * 3.

(** A bubble after the loop body of every frame of [frames], as long as
    no frame removes it. *)
Definition drifted (frames : list (R * (R * R))) (b : Bubble) : Bubble :=
  fold_left (fun b f => drift (fst f) b) frames b.

End Frames.

(** ** Sessions of the dispatcher *)

Module Session.

(** The queue entries of all transactions that arrive in a session, in
    the order of arrival. *)
Definition arrived (evs : list App.Event) : list App.QueuedTx :=
  flat_map (fun ev => match ev with
                      | App.Arrives tx => [App.queued tx]
                      | _ => []
                      end) evs.

(** The number of dispatcher ticks in a session. *)
Definition ticks (evs : list App.Event) : nat :=
  List.length (filter (fun ev => match ev with
                                 | App.Ticks _ _ => true
                                 | _ => false
                                 end) evs).

(** A run of ticks, each with its mount flag and its draws: the state
    after them and the calls they made, in order. *)
Definition tick_all (ds : list (bool * App.Draws)) (s : App.State)
  : App.State * list App.Call :=
  fold_left
    (fun acc md =>
       let t := App.processNextTransaction (fst md) (snd md) (fst acc) in
       (App.next t, snd acc ++ App.calls t))
    ds (s, []).

(** The values handed to [playTransaction], in the order of the calls. *)
Definition notes (cs : list App.Call) : list R :=
  flat_map (fun c => match c with
                     | App.PlayTransaction v _ => [v]
                     | App.AddTransaction _ _ _ => []
                     end) cs.

(** The particles handed to [addTransaction], in the order of the
    calls. *)
Definition spawns (cs : list App.Call)
  : list (option string * R * JS.number) :=
  flat_map (fun c => match c with
                     | App.PlayTransaction _ _ => []
                     | App.AddTransaction i v f => [(i, v, f)]
                     end) cs.

End Session.

(** ** The shape of a voice *)

Module Envelope.

Import AudioEngine.

(** A voice that starts at [now], rises to its peak, decays and stops,
    in that order and within 5.1 seconds, with a peak gain below 0.45 and
    a frequency between 49 Hz and 1760 Hz. *)
Definition bounded (now : R) (v : Voice) : Prop :=
  t_start v = now
  /\ t_start v < t_peak v < t_release v
  /\ t_release v < t_stop v <= now + 5.1
  /\ 0 < peak v < 0.45
  /\ 49 <= frequency v <= 1760.

End Envelope.

(** ** Starting the audio engine *)

Module Setup.

Import AudioEngine.

(** What the host decides during [init]: the context that the
    constructor returns, and whether [resume()] is fulfilled, which puts
    the context in the running state, or rejected. *)
Record Host : Type := mkHost {
  fresh : AudioContext;
  resumes : bool
}.

(** [init] gets to the chime: the new context runs, or is suspended and
    resumes. *)
Definition usable (h : Host) : Prop :=
  state (fresh h) = running
  \/ (state (fresh h) = suspended /\ resumes h = true).

(** [startShaker], with the first call of its [trigger]: the engine, and
    whether the pulse of noise bursts, one every 400 ms, has been set
    going by this call. *)
Definition startShaker (e : Engine) : Engine * bool :=
  match isShakerStarted e, ctx e with
  | false, Some _ =>
      ({| ctx := ctx e; masterGain := masterGain e; reverb := reverb e;
          delay := delay e; delayFeedback := delayFeedback e;
          isShakerStarted := true |},
       match masterGain e with
       | Some _ => true
       | None => false
       end)
  | _, _ => (e, false)
  end.

(** The body of [init] after its guard: the graph is built on the new
    context, a suspended context is resumed, and the chime and the shaker
    start.  A rejected [resume()] ends it with the graph built and no
    sound. *)
Definition build (h : Host) (e : Engine) : Result * bool :=
  let built c :=
    {| ctx := Some c; masterGain := Some 0.5; reverb := Some tt;
       delay := Some tt; delayFeedback := Some tt;
       isShakerStarted := isShakerStarted e |} in
  let finish e' :=
    let chime := playStartupChime e' in
    let (e'', pulsing) := startShaker (engine chime) in
    (mkResult e'' (voices chime) (completion chime), pulsing) in
  match state (fresh h) with
  | suspended =>
      if resumes h
      then finish (built {| state := running;
                            currentTime := currentTime (fresh h) |})
      else (mkResult (built (fresh h)) [] Thrown, false)
  | _ => finish (built (fresh h))
  end.

(** [init]: the result of the call and whether it set the shaker
    going. *)
Definition init (h : Host) (e : Engine) : Result * bool :=
  match ctx e with
  | Some c => if is_running (state c)
              then (mkResult e [] Returned, false)
              else build h e
  | None => build h e
  end.

End Setup.

(** ** Ingestion (services/mempoolSocket) *)

Module Socket.

(** An output of a transaction on the wire. *)
Record Vout : Type := mkVout { out_value : option R }.

(** A transaction as the API sends it; every field may be missing. *)
Record WireTx : Type := mkWireTx {
  w_txid : option string;
  w_id : option string;
  w_value : option R;
  w_vout : option (list Vout);
  w_vsize : option R;
  w_weight : option R;
  w_fee : option R;
  w_feeRate : option R
}.


(** The assumption on what the API sends: a number that is present is
    not negative. *)
Definition plausible (tx : WireTx) : Prop :=
  App.nonNegative (w_value tx)
  /\ App.nonNegative (w_vsize tx)
  /\ App.nonNegative (w_weight tx)
  /\ App.nonNegative (w_fee tx)
  /\ match w_vout tx with
     | Some vout => Forall (fun o => App.nonNegative (out_value o)) vout
     | None => True
     end.

(** *** The reconnecting socket *)

Inductive ConnectionStatus : Type := connecting | connected | disconnected.

(** The fields [ws] and [reconnectTimeout] of [MempoolSocket]; a
    WebSocket and a timer are the handles that the host gave for them. *)
Record MempoolSocket : Type := mkMempoolSocket {
  ws : option positive;
  reconnectTimeout : option positive
}.

(** What a method asks of the host. *)
Inductive Effect : Type :=
| OnStatus (st : ConnectionStatus)
| SetTimeout (t : positive)          (* [connect()] in 5000 ms *)
| ClearTimeout (t : positive)
| Hook (w : positive)                (* the handlers of a new WebSocket *)
| Unhook (w : positive)              (* [ws.onclose = null] *)
| Close (w : positive).

(** [t] is the handle that [window.setTimeout] returns if it is called. *)
Definition scheduleReconnect (t : positive) (m : MempoolSocket)
  : MempoolSocket * list Effect :=
  match reconnectTimeout m with
  | None => ({| ws := ws m; reconnectTimeout := Some t |}, [SetTimeout t])
  | Some _ => (m, [])
  end.

(** [newWs] is the WebSocket that the constructor returns, [None] if it
    throws. *)
Definition connect (newWs : option positive) (t : positive)
    (m : MempoolSocket) : MempoolSocket * list Effect :=
  let '(m, cleared) :=
    match reconnectTimeout m with
    | Some t0 => ({| ws := ws m; reconnectTimeout := None |}, [ClearTimeout t0])
    | None => (m, [])
    end in
  match newWs with
  | Some w =>
      ({| ws := Some w; reconnectTimeout := reconnectTimeout m |},
       cleared ++ [OnStatus connecting; Hook w])
  | None =>
      let '(m, scheduled) := scheduleReconnect t m in
      (m, cleared ++ [OnStatus connecting] ++ scheduled)
  end.

(** The handlers that [connect] gives to a WebSocket. *)
Definition onclose (t : positive) (m : MempoolSocket)
  : MempoolSocket * list Effect :=
  let '(m, scheduled) := scheduleReconnect t m in
  (m, OnStatus disconnected :: scheduled).

Definition onerror (m : MempoolSocket) : MempoolSocket * list Effect :=
  (m, match ws m with
      | Some w => [Close w]
      | None => []
      end).

Definition disconnect (m : MempoolSocket) : MempoolSocket * list Effect :=
  ({| ws := None; reconnectTimeout := None |},
   [OnStatus disconnected]
   ++ match reconnectTimeout m with
      | Some t => [ClearTimeout t]
      | None => []
      end
   ++ match ws m with
      | Some w => [Unhook w; Close w]
      | None => []
      end).

(** The socket with the host around it: the timers that are pending and
    the WebSockets whose close handler is in place. *)
Record World : Type := mkWorld {
  obj : MempoolSocket;
  pending : list positive;
  hooked : list positive
}.

Definition without (x : positive) (l : list positive) : list positive :=
  filter (fun y => negb (Pos.eqb y x)) l.

Definition perform (w : World) (e : Effect) : World :=
  match e with
  | SetTimeout t => mkWorld (obj w) (pending w ++ [t]) (hooked w)
  | ClearTimeout t => mkWorld (obj w) (without t (pending w)) (hooked w)
  | Hook s => mkWorld (obj w) (pending w) (hooked w ++ [s])
  | Unhook s => mkWorld (obj w) (pending w) (without s (hooked w))
  | OnStatus _ => w
  | Close _ => w
  end.

(** A method runs in a world: its effects are performed in order. *)
Definition call (f : MempoolSocket -> MempoolSocket * list Effect)
    (w : World) : World :=
  let '(m, effects) := f (obj w) in
  fold_left perform effects (mkWorld m (pending w) (hooked w)).

(** What the host does after the component has called [connect]: a
    pending timer fires and runs [connect], a hooked WebSocket closes or
    fails, or the component unmounts and calls [disconnect]. *)
Inductive HostEvent : Type :=
| TimerFires (t : positive) (newWs : option positive) (next : positive)
| SocketCloses (s : positive) (next : positive)
| SocketErrors (s : positive)
| Unmounts.

Definition react (w : World) (ev : HostEvent) : World :=
  match ev with
  | TimerFires t newWs next =>
      if existsb (Pos.eqb t) (pending w)
      then call (connect newWs next)
             (mkWorld (obj w) (without t (pending w)) (hooked w))
      else w
  | SocketCloses s next =>
      if existsb (Pos.eqb s) (hooked w)
      then call (onclose next)
             (mkWorld (obj w) (pending w) (without s (hooked w)))
      else w
  | SocketErrors s => call onerror w
  | Unmounts => call disconnect w
  end.

(** The world after the component has mounted and called [connect]. *)
Definition mounted (newWs : option positive) (t : positive) : World :=
  call (connect newWs t)
    (mkWorld {| ws := None; reconnectTimeout := None |} [] []).

Definition life (evs : list HostEvent) (w : World) : World :=
  fold_left react evs w.

(** The field [reconnectTimeout] holds the one pending timer, if any;
    while a timer is pending no WebSocket is hooked, and the only
    WebSocket ever hooked is the current one. *)
Definition settled (w : World) : Prop :=
  pending w = match reconnectTimeout (obj w) with
              | Some t => [t]
              | None => []
              end
  /\ (reconnectTimeout (obj w) <> None -> hooked w = [])
  /\ (hooked w = []
      \/ exists s, ws (obj w) = Some s /\ hooked w = [s]).

(** Nothing is left of the socket. *)
Definition quiet : World :=
  mkWorld {| ws := None; reconnectTimeout := None |} [] [].

End Socket.

(** ** The block clock of the header *)

Module Header.

(** [n.toString()] for an integer below 10^21 in absolute value, which
    JavaScript prints with all its digits; from 10^21 on it prints an
    exponent, which is not modelled.  The properties of [formatTime]
    below are stated for the integers that a number holds exactly, up to
    2^53 - 1 in absolute value. *)
Definition toString (n : Z) : string :=
  NilZero.string_of_int (Z.to_int n).

(** [s.padStart(2, '0')]. *)
Definition padStart2 (s : string) : string :=
  match String.length s with
  | O => "00"%string
  | S O => ("0" ++ s)%string
  | _ => s
  end.

(** [formatTime] for a whole number of seconds. *)
Definition formatTime (totalSeconds : Z) : string :=
  let mins := (totalSeconds / 60)%Z in
  let secs := Z.rem totalSeconds 60 in
  (toString mins ++ ":" ++ padStart2 (toString secs))%string.

(** Reading a run of decimal digits. *)
Definition parseDigits (s : string) : option Z :=
  option_map Z.of_uint (NilEmpty.uint_of_string s).

End Header.

(** ** More sample inputs *)

Module MoreSamples.

(** A bubble of radius 40 with three vertices, above the canvas. *)
Definition blob : Visualizer.Bubble :=
  {| Visualizer.id := Some "c"%string;
     Visualizer.x := 300; Visualizer.y := -130;
     Visualizer.radius := 40;
     Visualizer.vx := 0.1; Visualizer.vy := -0.5;
     Visualizer.baseHue := 140; Visualizer.alpha := 0.9;
     Visualizer.life := 0.8;
     Visualizer.value := 1000000; Visualizer.feeRate := 50;
     Visualizer.noiseOffsets := [0; 1; 2]; Visualizer.isWhale := false;
     Visualizer.pulseOffset := 10 |}.

Definition canvas : Visualizer.Canvas :=
  {| Visualizer.width := 1280; Visualizer.height := 720 |}.

Definition draws : Visualizer.SpawnDraws :=
  {| Visualizer.rnd_noise := repeat 0.5 14;
     Visualizer.rnd_id := "0.5"%string;
     Visualizer.rnd_x := 0.5; Visualizer.rnd_vx := 0.5;
     Visualizer.rnd_vy := 0.5; Visualizer.rnd_pulse := 0.5 |}.

(** A whale at 5 sat/vB. *)
Definition whaleTx : Visualizer.Tx :=
  {| Visualizer.tx_id := Some "w"%string;
     Visualizer.tx_value := 250000000;
     Visualizer.tx_feeRate := 5 |}.

(** A spawn and two frames. *)
Definition shortSession : list Frames.Op :=
  [Frames.Spawn (Some canvas) draws whaleTx;
   Frames.Frame 0.015 (-1000, -1000) false;
   Frames.Frame 0.03 (-1000, -1000) false].

(** A browser that hands out a suspended context and resumes it. *)
Definition host : Setup.Host :=
  {| Setup.fresh := {| AudioEngine.state := AudioEngine.suspended;
                       AudioEngine.currentTime := 0 |};
     Setup.resumes := true |}.


End MoreSamples.

(** * Properties *)

(** ** Comparisons and truthiness *)

Lemma leb_true (x y : R) : JS.leb x y = true <-> x <= y.
Proof. unfold JS.leb. destruct (Rle_dec x y); split; intros; auto; try discriminate; lra. Qed.

Lemma leb_false (x y : R) : JS.leb x y = false <-> y < x.
Proof. unfold JS.leb. destruct (Rle_dec x y); split; intros; auto; try discriminate; lra. Qed.

Lemma ltb_true (x y : R) : JS.ltb x y = true <-> x < y.
Proof. unfold JS.ltb. destruct (Rlt_dec x y); split; intros; auto; try discriminate; lra. Qed.

Lemma ltb_false (x y : R) : JS.ltb x y = false <-> y <= x.
Proof. unfold JS.ltb. destruct (Rlt_dec x y); split; intros; auto; try discriminate; lra. Qed.

Lemma truthy_true (x : R) : JS.truthy x = true <-> x <> 0.
Proof.
  unfold JS.truthy. destruct (Req_dec_T x 0); split; intros; auto;
    try discriminate; contradiction.
Qed.

Lemma truthy_false (x : R) : JS.truthy x = false <-> x = 0.
Proof.
  unfold JS.truthy. destruct (Req_dec_T x 0); split; intros; auto;
    try discriminate; contradiction.
Qed.

(** Decides the comparisons of a goal between numerals. *)
Ltac js_cmp :=
  repeat match goal with
    | |- context [JS.geb ?x ?y] => unfold JS.geb
    | |- context [JS.gtb ?x ?y] => unfold JS.gtb
    | |- context [JS.leb ?x ?y] =>
        first [ rewrite (proj2 (leb_true x y)) by lra
              | rewrite (proj2 (leb_false x y)) by lra ]
    | |- context [JS.ltb ?x ?y] =>
        first [ rewrite (proj2 (ltb_true x y)) by lra
              | rewrite (proj2 (ltb_false x y)) by lra ]
    | |- context [JS.truthy ?x] =>
        first [ rewrite (proj2 (truthy_true x)) by lra
              | rewrite (proj2 (truthy_false x)) by lra ]
    end.

(** ** Hue from fee rate *)

Section Hue.

Import Visualizer.

Ltac hue_cases :=
  unfold getHueFromFeeRate, Rmax;
  repeat match goal with
    | |- context [Rle_dec ?a ?b] => destruct (Rle_dec a b)
    end.

Lemma hue_at_1 : getHueFromFeeRate 1 = 210.
Proof. hue_cases; lra. Qed.

Lemma hue_nonincreasing (f g : R) :
  f <= g -> getHueFromFeeRate g <= getHueFromFeeRate f.
Proof. intros H. hue_cases; lra. Qed.

Lemma hue_nonneg (f : R) : 0 <= getHueFromFeeRate f.
Proof. hue_cases; lra. Qed.

(** Past 1 sat/vB no band is steeper than the second, 70 degrees over 50
    sat/vB. *)
Lemma hue_lipschitz (a b : R) :
  1 < a -> 1 < b ->
  Rabs (getHueFromFeeRate a - getHueFromFeeRate b) <= 1.4 * Rabs (a - b).
Proof.
  intros Ha Hb. unfold Rabs.
  destruct (Rcase_abs (a - b));
    destruct (Rcase_abs (getHueFromFeeRate a - getHueFromFeeRate b)) as [H|H];
    revert H; hue_cases; intros; lra.
Qed.

Lemma hue_constant_below_1 (a : R) : a <= 1 -> getHueFromFeeRate a = 210.
Proof. intros H. hue_cases; lra. Qed.

Lemma hue_continuous_off_1 (f : R) :
  f <> 1 -> continuity_pt getHueFromFeeRate f.
Proof.
  intros Hf eps Heps. simpl. unfold R_dist.
  destruct (Rlt_dec f 1) as [Hlt|Hge].
  - exists (1 - f). split; [lra|]. intros z [_ Hz].
    rewrite (hue_constant_below_1 f) by lra.
    rewrite (hue_constant_below_1 z).
    + unfold Rminus. rewrite Rplus_opp_r, Rabs_R0. lra.
    + unfold Rabs in Hz. destruct (Rcase_abs (z - f)); lra.
  - assert (1 < f) by lra.
    exists (Rmin (f - 1) (eps / 1.4)). split.
    + apply Rmin_glb_lt; [lra|]. apply Rdiv_lt_0_compat; lra.
    + intros z [_ Hz].
      assert (Hz1 : Rabs (z - f) < f - 1)
        by (eapply Rlt_le_trans; [exact Hz | apply Rmin_l]).
      assert (Hz2 : Rabs (z - f) < eps / 1.4)
        by (eapply Rlt_le_trans; [exact Hz | apply Rmin_r]).
      assert (1 < z) by (unfold Rabs in Hz1; destruct (Rcase_abs (z - f)); lra).
      eapply Rle_lt_trans; [apply hue_lipschitz; lra|]. lra.
Qed.

(** Just above 1 sat/vB the second band starts at 208.6, not at 210. *)
Lemma hue_jump_at_1 (z : R) :
  1 < z -> getHueFromFeeRate z <= 208.6.
Proof. intros H. hue_cases; lra. Qed.

Lemma hue_below_208_6 (z : R) :
  1 < z -> getHueFromFeeRate z < 208.6.
Proof. intros H. hue_cases; lra. Qed.

(** The second band as the code computes it: the fee rate itself is
    scaled, not its distance from the start of the band. *)
Lemma hue_second_band (z : R) :
  1 < z -> z <= 50 -> getHueFromFeeRate z = 210 - (z / 50) * 70.
Proof. intros H1 H2. hue_cases; lra. Qed.

Lemma hue_third_band (z : R) :
  50 < z -> z <= 150 -> getHueFromFeeRate z = 140 - ((z - 50) / 100) * 95.
Proof. intros H1 H2. hue_cases; lra. Qed.

(** The hues just above 1 sat/vB come as close to 208.6 as one likes. *)
Lemma hue_tends_to_208_6 (eps : R) :
  0 < eps -> exists z, 1 < z /\ 208.6 - eps < getHueFromFeeRate z.
Proof.
  intros He. exists (1 + Rmin 1 (eps / 2)).
  assert (H0 : 0 < Rmin 1 (eps / 2)) by (apply Rmin_glb_lt; lra).
  assert (H1 : Rmin 1 (eps / 2) <= 1) by apply Rmin_l.
  assert (H2 : Rmin 1 (eps / 2) <= eps / 2) by apply Rmin_r.
  split; [lra|]. rewrite hue_second_band by lra. lra.
Qed.

Lemma hue_not_continuous_at_1 : ~ continuity_pt getHueFromFeeRate 1.
Proof.
  intros C. destruct (C 1 ltac:(lra)) as [alp [Halp H]].
  simpl in H. unfold R_dist in H.
  pose (z := 1 + Rmin (alp / 2) 1).
  assert (Hm1 : 0 < Rmin (alp / 2) 1) by (apply Rmin_glb_lt; lra).
  assert (Hm2 : Rmin (alp / 2) 1 <= alp / 2) by apply Rmin_l.
  specialize (H z). rewrite hue_at_1 in H.
  assert (Hz : getHueFromFeeRate z <= 208.6) by (apply hue_jump_at_1; unfold z; lra).
  assert (HD : D_x no_cond 1 z /\ Rabs (z - 1) < alp).
  { split.
    - split; [exact I | unfold z; lra].
    - unfold z, Rabs. destruct (Rcase_abs (1 + Rmin (alp / 2) 1 - 1)); lra. }
  specialize (H HD). unfold Rabs in H.
  destruct (Rcase_abs (getHueFromFeeRate z - 210)); lra.
Qed.

End Hue.


(** The properties that the specification gives the mapping do not hold
    together of the code: the mapping is not continuous. *)
Lemma hue_continuity_fails :
  ~ (continuity Visualizer.getHueFromFeeRate
     /\ (forall f g, f <= g ->
           Visualizer.getHueFromFeeRate g <= Visualizer.getHueFromFeeRate f)
     /\ Visualizer.getHueFromFeeRate 1 = 210
     /\ Visualizer.getHueFromFeeRate 50 = 140
     /\ Visualizer.getHueFromFeeRate 150 = 45
     /\ (forall f, 400 <= f -> Visualizer.getHueFromFeeRate f = 0)
     /\ (forall f, 0 <= Visualizer.getHueFromFeeRate f)).
Proof.
  intros [C _]. exact (hue_not_continuous_at_1 (C 1)).
Qed.

(** What does hold of the code: [getHueFromFeeRate] is monotonically
    non-increasing in the fee rate over all four bands and continuous at
    every fee rate other than 1; hue(1) = 210, hue(50) = 140,
    hue(150) = 45, hue(f) = 0 for every f >= 400, and the hue is never
    negative. *)
Lemma hue_mapping :
  (forall f, f <> 1 -> continuity_pt Visualizer.getHueFromFeeRate f)
  /\ (forall z, 1 < z -> Visualizer.getHueFromFeeRate z <= 208.6)
  /\ (forall f g, f <= g ->
        Visualizer.getHueFromFeeRate g <= Visualizer.getHueFromFeeRate f)
  /\ Visualizer.getHueFromFeeRate 1 = 210
  /\ Visualizer.getHueFromFeeRate 50 = 140
  /\ Visualizer.getHueFromFeeRate 150 = 45
  /\ (forall f, 400 <= f -> Visualizer.getHueFromFeeRate f = 0)
  /\ (forall f, 0 <= Visualizer.getHueFromFeeRate f).
Proof.
  split; [exact hue_continuous_off_1|].
  split; [exact hue_jump_at_1|].
  split; [exact hue_nonincreasing|].
  split; [exact hue_at_1|].
  repeat split; try exact hue_nonneg; intros;
    unfold Visualizer.getHueFromFeeRate, Rmax;
    repeat match goal with
      | |- context [Rle_dec ?a ?b] => destruct (Rle_dec a b)
      end; lra.
Qed.

(** C3: the code departs from the claimed mapping at 1 sat/vB.  The
    second band is [210 - (feeRate / 50) * 70]: unlike the third band,
    which scales [feeRate - 50], it scales the fee rate itself and not the
    distance from the start of the band.  So the hue is 210 at 1 sat/vB
    and 207.9 at 1.5 sat/vB; every fee rate above 1 gets a hue below
    208.6, the value that the hues just above 1 tend to; the mapping
    steps down by 1.4 degrees at 1 and is not continuous there, while it
    is continuous at every other fee rate. *)
Theorem hue_steps_down_at_1 :
  Visualizer.getHueFromFeeRate 1 = 210
  /\ Visualizer.getHueFromFeeRate 1.5 = 207.9
  /\ (forall z, 1 < z -> z <= 50 ->
        Visualizer.getHueFromFeeRate z = 210 - (z / 50) * 70)
  /\ (forall z, 50 < z -> z <= 150 ->
        Visualizer.getHueFromFeeRate z = 140 - ((z - 50) / 100) * 95)
  /\ (forall z, 1 < z -> Visualizer.getHueFromFeeRate z < 208.6)
  /\ (forall eps, 0 < eps ->
        exists z, 1 < z /\ 208.6 - eps < Visualizer.getHueFromFeeRate z)
  /\ ~ continuity_pt Visualizer.getHueFromFeeRate 1
  /\ (forall f, f <> 1 -> continuity_pt Visualizer.getHueFromFeeRate f).
Proof.
  split; [exact hue_at_1|].
  split; [rewrite hue_second_band by lra; lra|].
  split; [exact hue_second_band|].
  split; [exact hue_third_band|].
  split; [exact hue_below_208_6|].
  split; [exact hue_tends_to_208_6|].
  split; [exact hue_not_continuous_at_1 | exact hue_continuous_off_1].
Qed.

(** ** Radius from value *)

Section Radius.

Import Visualizer.

Lemma sqrt_22500 : sqrt 22500 = 150.
Proof. replace 22500 with (150 * 150) by lra. apply sqrt_square. lra. Qed.

Lemma radius_of_at_0 : radius_of 0 = 30.
Proof.
  unfold radius_of, btc_of.
  replace (0 / 100000000 * 30000) with 0 by lra.
  rewrite sqrt_0. unfold Rmin, Rmax.
  destruct (Rle_dec 180 (0 + 30)); destruct (Rle_dec 20 (0 + 30)); lra.
Qed.

Lemma clamp_monotone (lo hi a b : R) :
  a <= b -> Rmax lo (Rmin hi a) <= Rmax lo (Rmin hi b).
Proof.
  intros H. apply Rle_max_compat_l. apply Rle_min_compat_l. exact H.
Qed.

Lemma radius_of_monotone (v w : R) :
  0 <= v -> v <= w -> radius_of v <= radius_of w.
Proof.
  intros Hv Hvw. unfold radius_of, btc_of. apply clamp_monotone.
  apply Rplus_le_compat_r. apply sqrt_le_1_alt. lra.
Qed.

(** The square root is never negative, so the lower bound 20 of the clamp
    is never reached: the smallest radius is 30. *)
Lemma radius_of_bounds (v : R) : 30 <= radius_of v <= 180.
Proof.
  unfold radius_of, btc_of.
  pose proof (sqrt_pos (v / 100000000 * 30000)) as Hs.
  unfold Rmin, Rmax.
  destruct (Rle_dec 180 (sqrt (v / 100000000 * 30000) + 30));
    match goal with
    | |- context [Rle_dec ?a ?b] => destruct (Rle_dec a b)
    end; lra.
Qed.

(** From 0.75 BTC on the radius is the upper bound of the clamp. *)
Lemma radius_of_saturates (v : R) : 75000000 <= v -> radius_of v = 180.
Proof.
  intros Hv. unfold radius_of, btc_of.
  assert (Hs : 150 <= sqrt (v / 100000000 * 30000)).
  { rewrite <- sqrt_22500. apply sqrt_le_1_alt. lra. }
  unfold Rmin, Rmax.
  destruct (Rle_dec 180 (sqrt (v / 100000000 * 30000) + 30));
    match goal with
    | |- context [Rle_dec ?a ?b] => destruct (Rle_dec a b)
    end; lra.
Qed.

Lemma addTransaction_spawns (c : Canvas) (d : SpawnDraws) (tx : Tx)
    (s : State) :
  exists b,
    bubbles (addTransaction (Some c) d tx s) = bubbles s ++ [b]
    /\ radius b = radius_of (tx_value tx)
    /\ baseHue b = getHueFromFeeRate (tx_feeRate tx)
    /\ isWhale b = isWhale_of (tx_value tx)
    /\ life b = 1.
Proof.
  eexists. split; [reflexivity|]. simpl. repeat split; lra.
Qed.

End Radius.

(** C4, as the specification states it, fails: at value 0 the radius is
    30, which the clamp leaves alone, and not 20. *)
Lemma radius_at_zero_is_not_20 :
  Visualizer.radius_of 0 = 30 /\ Visualizer.radius_of 0 <> 20.
Proof.
  split; [exact radius_of_at_0|]. rewrite radius_of_at_0. lra.
Qed.

(** C4 (amended): for every value v >= 0 in satoshis the particle that
    [addTransaction] spawns has radius
    clamp(sqrt((v/1e8) * 30000) + 30, 20, 180); the mapping is monotonic
    non-decreasing in v; it saturates at the upper end only: the radius is
    180 from 75,000,000 satoshis on, while at v = 0 it is 30 and no radius
    is below 30, so the lower bound 20 is never reached. *)
Theorem radius_mapping :
  (forall c d tx s, exists b,
      Visualizer.bubbles (Visualizer.addTransaction (Some c) d tx s)
        = Visualizer.bubbles s ++ [b]
      /\ Visualizer.radius b
         = Rmax 20 (Rmin 180
             (sqrt (Visualizer.tx_value tx / 100000000 * 30000) + 30)))
  /\ (forall v w, 0 <= v -> v <= w ->
        Visualizer.radius_of v <= Visualizer.radius_of w)
  /\ Visualizer.radius_of 0 = 30
  /\ (forall v, 30 <= Visualizer.radius_of v <= 180)
  /\ (forall v, 75000000 <= v -> Visualizer.radius_of v = 180).
Proof.
  split.
  { intros c d tx s.
    destruct (addTransaction_spawns c d tx s) as [b [Hb [Hr _]]].
    exists b. split; [exact Hb | exact Hr]. }
  split; [exact radius_of_monotone|].
  split; [exact radius_of_at_0|].
  split; [exact radius_of_bounds | exact radius_of_saturates].
Qed.

(** ** Pitch from value *)

Section Pitch.

Import AudioEngine.

Lemma ln_le (a b : R) : 0 < a -> a <= b -> ln a <= ln b.
Proof.
  intros Ha [Hlt | ->]; [left; apply ln_increasing; assumption | right; reflexivity].
Qed.

Lemma ln_10_pos : 0 < ln 10.
Proof. rewrite <- ln_1. apply ln_increasing; lra. Qed.

Lemma log10_le (a b : R) : 0 < a -> a <= b -> JS.log10 a <= JS.log10 b.
Proof.
  intros Ha Hab. unfold JS.log10, Rdiv.
  apply Rmult_le_compat_r; [left; apply Rinv_0_lt_compat, ln_10_pos|].
  apply ln_le; assumption.
Qed.

Lemma log10_lt (a b : R) : 0 < a -> a < b -> JS.log10 a < JS.log10 b.
Proof.
  intros Ha Hab. unfold JS.log10, Rdiv.
  apply Rmult_lt_compat_r; [apply Rinv_0_lt_compat, ln_10_pos|].
  apply ln_increasing; assumption.
Qed.

Lemma clamp_bounds (lo hi v : R) :
  lo <= hi -> lo <= Rmax lo (Rmin hi v) <= hi.
Proof.
  intros H. unfold Rmin, Rmax.
  destruct (Rle_dec hi v);
    match goal with
    | |- context [Rle_dec ?a ?b] => destruct (Rle_dec a b)
    end; lra.
Qed.

Section Tier.

Variables low high : R.
Hypothesis low_pos : 0 < low.
Hypothesis low_high : low < high.

Lemma log_span_pos : 0 < JS.log10 high - JS.log10 low.
Proof. pose proof (log10_lt low high low_pos low_high). lra. Qed.

Lemma ratioOf_bounds (v : R) : 0 <= ratioOf v low high <= 1.
Proof.
  unfold ratioOf.
  destruct (clamp_bounds low high v ltac:(lra)) as [Hlo Hhi].
  pose proof (log10_le _ _ low_pos Hlo) as H1.
  assert (Hc : 0 < Rmax low (Rmin high v)) by lra.
  pose proof (log10_le _ high Hc Hhi) as H2.
  pose proof log_span_pos as Hs.
  split.
  - apply Rmult_le_pos; [lra | left; apply Rinv_0_lt_compat, Hs].
  - apply (Rmult_le_reg_r (JS.log10 high - JS.log10 low)); [exact Hs|].
    unfold Rdiv. rewrite Rmult_assoc, Rinv_l by lra. lra.
Qed.

Lemma ratioOf_monotone (v w : R) :
  v <= w -> ratioOf v low high <= ratioOf w low high.
Proof.
  intros Hvw. unfold ratioOf, Rdiv.
  apply Rmult_le_compat_r; [left; apply Rinv_0_lt_compat, log_span_pos|].
  apply Rplus_le_compat_r.
  apply log10_le.
  - destruct (clamp_bounds low high v ltac:(lra)); lra.
  - apply clamp_monotone, Hvw.
Qed.

Lemma ratioOf_low : ratioOf low low high = 0.
Proof.
  unfold ratioOf.
  replace (Rmax low (Rmin high low)) with low.
  - unfold Rdiv, Rminus. rewrite Rplus_opp_r. apply Rmult_0_l.
  - unfold Rmin, Rmax. destruct (Rle_dec high low); [lra|].
    destruct (Rle_dec low low); lra.
Qed.

Lemma ratioOf_high : ratioOf high low high = 1.
Proof.
  unfold ratioOf.
  replace (Rmax low (Rmin high high)) with high.
  - unfold Rdiv. apply Rinv_r. pose proof log_span_pos. lra.
  - unfold Rmin, Rmax. destruct (Rle_dec high high); [|lra].
    destruct (Rle_dec low high); lra.
Qed.

Lemma frequencyIndex_unfold (v : R) :
  frequencyIndex v low high = Zfloor ((1 - ratioOf v low high) * 15).
Proof.
  unfold frequencyIndex, JS.floor. f_equal. f_equal.
  change (JS.length DRUM_FREQUENCIES) with 16%Z. lra.
Qed.

Lemma frequencyIndex_bounds (v : R) :
  (0 <= frequencyIndex v low high <= 15)%Z.
Proof.
  rewrite frequencyIndex_unfold.
  destruct (ratioOf_bounds v) as [H0 H1].
  split.
  - apply Zfloor_lub. simpl. nra.
  - apply le_IZR.
    destruct (Zfloor_bound ((1 - ratioOf v low high) * 15)) as [Hf _].
    eapply Rle_trans; [exact Hf|]. nra.
Qed.

Lemma frequencyIndex_antitone (v w : R) :
  v <= w -> (frequencyIndex w low high <= frequencyIndex v low high)%Z.
Proof.
  intros Hvw. rewrite !frequencyIndex_unfold. apply Zfloor_le.
  pose proof (ratioOf_monotone v w Hvw). lra.
Qed.

Lemma frequencyIndex_low : frequencyIndex low low high = 15%Z.
Proof.
  rewrite frequencyIndex_unfold, ratioOf_low.
  apply Zfloor_eq. lra.
Qed.

Lemma frequencyIndex_high : frequencyIndex high low high = 0%Z.
Proof.
  rewrite frequencyIndex_unfold, ratioOf_high.
  apply Zfloor_eq. lra.
Qed.

End Tier.

Lemma index_defined {A : Type} (a : list A) (i : Z) :
  (0 <= i < JS.length a)%Z -> exists v, JS.index a i = Some v /\ In v a.
Proof.
  intros [H0 H1]. unfold JS.index, JS.length in *.
  destruct (Z.ltb_spec i 0) as [Hneg|_]; [lia|].
  destruct (nth_error a (Z.to_nat i)) eqn:E.
  - exists a0. split; [reflexivity | eapply nth_error_In; exact E].
  - apply nth_error_None in E. lia.
Qed.

Lemma nth_error_sorted {A : Type} (le : A -> A -> Prop) (l : list A) :
  StronglySorted le l ->
  forall i j a b, (i < j)%nat ->
    nth_error l i = Some a -> nth_error l j = Some b -> le a b.
Proof.
  induction 1 as [|x t Hs IH Hx]; intros i j a b Hij Hi Hj.
  - destruct i; discriminate.
  - destruct j as [|j]; [lia|]. simpl in Hj.
    destruct i as [|i]; simpl in Hi.
    + injection Hi as <-.
      rewrite Forall_forall in Hx. apply Hx. eapply nth_error_In; exact Hj.
    + apply (IH i j); [lia | assumption | assumption].
Qed.

Lemma DRUM_FREQUENCIES_sorted : StronglySorted Rle DRUM_FREQUENCIES.
Proof.
  unfold DRUM_FREQUENCIES.
  repeat (apply SSorted_cons; [| repeat (apply Forall_cons; [lra|]); apply Forall_nil]).
  apply SSorted_nil.
Qed.

(** The scale ascends: a lower index is a lower pitch. *)
Lemma scale_ascends (i j : Z) (a b : R) :
  (i <= j)%Z ->
  JS.index DRUM_FREQUENCIES i = Some a ->
  JS.index DRUM_FREQUENCIES j = Some b ->
  a <= b.
Proof.
  unfold JS.index. intros Hij Hi Hj.
  destruct (Z.ltb_spec i 0); [discriminate|].
  destruct (Z.ltb_spec j 0); [discriminate|].
  destruct (Z.eq_dec i j) as [->|Hne].
  - rewrite Hi in Hj. injection Hj as ->. lra.
  - apply (nth_error_sorted Rle _ DRUM_FREQUENCIES_sorted
             (Z.to_nat i) (Z.to_nat j)); [lia | assumption | assumption].
Qed.

Lemma frequency_defined (low high v : R) :
  0 < low -> low < high ->
  exists f, getFrequencyFromValue v low high = Some f
            /\ In f DRUM_FREQUENCIES.
Proof.
  intros Hl Hh. unfold getFrequencyFromValue. apply index_defined.
  pose proof (frequencyIndex_bounds low high Hl Hh v).
  change (JS.length DRUM_FREQUENCIES) with 16%Z. lia.
Qed.

Lemma frequency_antitone (low high v w f g : R) :
  0 < low -> low < high -> v <= w ->
  getFrequencyFromValue v low high = Some f ->
  getFrequencyFromValue w low high = Some g ->
  g <= f.
Proof.
  intros Hl Hh Hvw Hf Hg.
  apply (scale_ascends _ _ _ _ (frequencyIndex_antitone low high Hl Hh v w Hvw) Hg Hf).
Qed.

Lemma frequency_at_low (low high : R) :
  0 < low -> low < high ->
  getFrequencyFromValue low low high = Some 880.00.
Proof.
  intros Hl Hh. unfold getFrequencyFromValue.
  rewrite (frequencyIndex_low low high Hh). reflexivity.
Qed.

Lemma frequency_at_high (low high : R) :
  0 < low -> low < high ->
  getFrequencyFromValue high low high = Some 196.00.
Proof.
  intros Hl Hh. unfold getFrequencyFromValue.
  rewrite (frequencyIndex_high low high Hl Hh). reflexivity.
Qed.

End Pitch.

(** C2, as the specification states it, fails: in the steel-drum tier
    (0.1, 1.0) the value 0.1 plays 880 Hz and the larger value 1.0 plays
    196 Hz, so the pitch does not rise with the value. *)
Lemma pitch_does_not_rise_with_value :
  ~ (forall low high v1 v2 f1 f2 : R,
       0 < low < high -> low <= v1 <= v2 /\ v2 <= high ->
       AudioEngine.getFrequencyFromValue v1 low high = Some f1 ->
       AudioEngine.getFrequencyFromValue v2 low high = Some f2 ->
       f1 <= f2).
Proof.
  intros H.
  assert (Hl : 0 < 0.1) by lra. assert (Hh : 0.1 < 1) by lra.
  specialize (H 0.1 1 0.1 1 880.00 196.00 ltac:(lra) ltac:(lra)
                (frequency_at_low 0.1 1 Hl Hh) (frequency_at_high 0.1 1 Hl Hh)).
  lra.
Qed.

(** C2 (amended): for every instrument tier with bounds 0 < low < high,
    the pitch chosen by [getFrequencyFromValue] is monotonically
    non-increasing in the value: for all v1 <= v2 the frequency selected
    for v2 is less than or equal to the one selected for v1; the low bound
    of the tier plays the top of the scale (880 Hz) and the high bound its
    bottom (196 Hz). *)
Theorem pitch_falls_with_value (low high v1 v2 : R) :
  0 < low < high -> v1 <= v2 ->
  (exists f1 f2,
      AudioEngine.getFrequencyFromValue v1 low high = Some f1
      /\ AudioEngine.getFrequencyFromValue v2 low high = Some f2
      /\ f2 <= f1)
  /\ AudioEngine.getFrequencyFromValue low low high = Some 880.00
  /\ AudioEngine.getFrequencyFromValue high low high = Some 196.00.
Proof.
  intros [Hl Hh] Hv. split.
  - destruct (frequency_defined low high v1 Hl Hh) as [f1 [E1 _]].
    destruct (frequency_defined low high v2 Hl Hh) as [f2 [E2 _]].
    exists f1, f2. repeat split; try assumption.
    exact (frequency_antitone low high v1 v2 f1 f2 Hl Hh Hv E1 E2).
  - split; [apply frequency_at_low | apply frequency_at_high]; assumption.
Qed.

Lemma pitch_falls_with_value_witness :
  (exists f1 f2,
      AudioEngine.getFrequencyFromValue 0.2 0.1 1 = Some f1
      /\ AudioEngine.getFrequencyFromValue 0.5 0.1 1 = Some f2
      /\ f2 <= f1)
  /\ AudioEngine.getFrequencyFromValue 0.1 0.1 1 = Some 880.00
  /\ AudioEngine.getFrequencyFromValue 1 0.1 1 = Some 196.00.
Proof.
  apply (pitch_falls_with_value 0.1 1 0.2 0.5); lra.
Defined.

(** C10: for all tier bounds 0 < low < high and every real value, zero,
    negative and far outside the bounds included, [getFrequencyFromValue]
    computes an index between 0 and 15 and returns an element of the
    16-entry scale, never [undefined]. *)
Theorem frequency_index_in_scale (low high v : R) :
  0 < low < high ->
  (0 <= AudioEngine.frequencyIndex v low high <= 15)%Z
  /\ JS.length AudioEngine.DRUM_FREQUENCIES = 16%Z
  /\ exists f,
       AudioEngine.getFrequencyFromValue v low high = Some f
       /\ In f AudioEngine.DRUM_FREQUENCIES.
Proof.
  intros [Hl Hh]. split; [apply frequencyIndex_bounds; assumption|].
  split; [reflexivity | apply frequency_defined; assumption].
Qed.

Lemma frequency_index_in_scale_witness :
  (0 <= AudioEngine.frequencyIndex (-3) 0.00001 0.01 <= 15)%Z
  /\ JS.length AudioEngine.DRUM_FREQUENCIES = 16%Z
  /\ exists f,
       AudioEngine.getFrequencyFromValue (-3) 0.00001 0.01 = Some f
       /\ In f AudioEngine.DRUM_FREQUENCIES.
Proof.
  apply (frequency_index_in_scale 0.00001 0.01 (-3)); lra.
Defined.

(** ** The pending queue *)

Section Queue.

Import App.

Lemma length_push {A : Type} (q : list A) (x : A) :
  JS.length (q ++ [x]) = (JS.length q + 1)%Z.
Proof. unfold JS.length. rewrite length_app. simpl. lia. Qed.

Lemma splice0_push {A : Type} (n : nat) (q : list A) (x : A) :
  (n <= List.length q)%nat ->
  JS.splice0 n (q ++ [x]) = JS.splice0 n q ++ [x].
Proof.
  intros H. unfold JS.splice0. rewrite skipn_app.
  replace (n - List.length q)%nat with 0%nat by lia. reflexivity.
Qed.

Lemma length_splice0 {A : Type} (n : nat) (q : list A) :
  (n <= List.length q)%nat ->
  JS.length (JS.splice0 n q) = (JS.length q - Z.of_nat n)%Z.
Proof.
  intros H. unfold JS.length, JS.splice0. rewrite length_skipn. lia.
Qed.

Lemma handleNewTransaction_queue (tx : RawTx) (s : State) :
  txQueue (handleNewTransaction tx s)
  = if (5000 <=? JS.length (txQueue s))%Z
    then JS.splice0 500 (txQueue s) ++ [queued tx]
    else txQueue s ++ [queued tx].
Proof.
  unfold handleNewTransaction. cbn [txQueue]. rewrite length_push.
  destruct (Z.ltb_spec 5000 (JS.length (txQueue s) + 1));
    destruct (Z.leb_spec 5000 (JS.length (txQueue s))); try lia.
  - apply splice0_push. unfold JS.length in *. lia.
  - reflexivity.
Qed.

(** Over the cap, the 500 oldest entries go and the new one stays last. *)
Lemma handleNewTransaction_trims (tx : RawTx) (s : State) :
  (5000 <= JS.length (txQueue s))%Z ->
  txQueue (handleNewTransaction tx s) = skipn 500 (txQueue s) ++ [queued tx]
  /\ JS.length (txQueue (handleNewTransaction tx s))
     = (JS.length (txQueue s) - 499)%Z.
Proof.
  intros H. rewrite handleNewTransaction_queue.
  destruct (Z.leb_spec 5000 (JS.length (txQueue s))); [|lia].
  split; [reflexivity|].
  rewrite length_push, length_splice0; [lia | unfold JS.length in *; lia].
Qed.

Lemma handleNewTransaction_appends (tx : RawTx) (s : State) :
  (JS.length (txQueue s) < 5000)%Z ->
  txQueue (handleNewTransaction tx s) = txQueue s ++ [queued tx].
Proof.
  intros H. rewrite handleNewTransaction_queue.
  destruct (Z.leb_spec 5000 (JS.length (txQueue s))); [lia | reflexivity].
Qed.

Lemma handleNewTransaction_capped (tx : RawTx) (s : State) :
  (JS.length (txQueue s) <= 5000)%Z ->
  (JS.length (txQueue (handleNewTransaction tx s)) <= 5000)%Z.
Proof.
  intros H.
  destruct (Z.le_gt_cases 5000 (JS.length (txQueue s))) as [Hge|Hlt].
  - destruct (handleNewTransaction_trims tx s Hge) as [_ ->]. lia.
  - rewrite (handleNewTransaction_appends tx s Hlt), length_push. lia.
Qed.

(** A tick leaves the queue alone or takes its head. *)
Lemma tick_queue (mounted : bool) (d : Draws) (s : State) :
  txQueue (next (processNextTransaction mounted d s)) = txQueue s
  \/ exists tx, txQueue s = tx :: txQueue (next (processNextTransaction mounted d s)).
Proof.
  unfold processNextTransaction. cbv zeta.
  destruct ((0 <? JS.length (txQueue s))%Z && _).
  - destruct (txQueue s) as [|tx rest]; cbn; [left; reflexivity|].
    right. exists tx. reflexivity.
  - destruct (_ && _); cbn; left; reflexivity.
Qed.

Lemma tick_queue_length (mounted : bool) (d : Draws) (s : State) :
  (JS.length (txQueue (next (processNextTransaction mounted d s)))
   <= JS.length (txQueue s))%Z.
Proof.
  destruct (tick_queue mounted d s) as [->|[tx E]]; [lia|].
  rewrite E. unfold JS.length. simpl List.length. lia.
Qed.

(** Induction over a session. *)
Lemma run_invariant (P : State -> Prop) (ok : Event -> Prop) :
  (forall s ev, P s -> ok ev -> P (step s ev)) ->
  forall evs s, P s -> Forall ok evs -> P (run evs s).
Proof.
  intros Hstep. induction evs as [|ev evs IH]; intros s Hs Hok.
  - exact Hs.
  - inversion Hok; subst. simpl. apply IH; [apply Hstep|]; assumption.
Qed.

Lemma queue_never_over_cap (evs : list Event) :
  (JS.length (txQueue (run evs initial)) <= 5000)%Z.
Proof.
  apply (run_invariant (fun s => (JS.length (txQueue s) <= 5000)%Z)
           (fun _ => True)).
  - intros s [tx | mounted d |] Hs _; simpl.
    + apply handleNewTransaction_capped, Hs.
    + pose proof (tick_queue_length mounted d s). lia.
    + exact Hs.
  - unfold JS.length. simpl. lia.
  - apply Forall_forall. intros; exact I.
Qed.

(** *** The value of a queued transaction *)

Lemma queued_value_present (tx : RawTx) (v : R) :
  value tx = Some v -> v <> 0 -> q_value (queued tx) = v.
Proof.
  intros E Hv. unfold queued. cbn [q_value]. rewrite E. unfold JS.opt_or_else, JS.or_else.
  rewrite (proj2 (truthy_true v) Hv). reflexivity.
Qed.

Lemma queued_value_missing (tx : RawTx) :
  value tx = None \/ value tx = Some 0 ->
  q_value (queued tx)
  = match vsize tx with
    | Some vs => if JS.truthy vs then vs * 120 else 10000
    | None => 10000
    end.
Proof.
  intros [E|E]; unfold queued; cbn [q_value]; rewrite E;
    unfold JS.opt_or_else, JS.or_else; [reflexivity|].
  rewrite (proj2 (truthy_false 0) eq_refl). reflexivity.
Qed.

Lemma queued_value_positive (tx : RawTx) :
  plausible tx -> 0 < q_value (queued tx).
Proof.
  intros [Hv Hs].
  assert (Halt : 0 < match vsize tx with
                     | Some vs => if JS.truthy vs then vs * 120 else 10000
                     | None => 10000
                     end).
  { destruct (vsize tx) as [vs|]; [|lra]. simpl in Hs.
    destruct (JS.truthy vs) eqn:E; [|lra].
    apply truthy_true in E. lra. }
  destruct (value tx) as [v|] eqn:E.
  - simpl in Hv. destruct (Req_dec_T v 0) as [->|Hne].
    + rewrite queued_value_missing by (right; exact E). exact Halt.
    + rewrite (queued_value_present tx v E Hne). lra.
  - rewrite queued_value_missing by (left; exact E). exact Halt.
Qed.

Lemma all_positive_skipn (n : nat) (q : list QueuedTx) :
  all_positive q -> all_positive (skipn n q).
Proof.
  unfold all_positive. intros H.
  rewrite <- (firstn_skipn n q) in H. apply Forall_app in H. tauto.
Qed.

Lemma handleNewTransaction_positive (tx : RawTx) (s : State) :
  plausible tx -> all_positive (txQueue s) ->
  all_positive (txQueue (handleNewTransaction tx s)).
Proof.
  intros Htx Hq. rewrite handleNewTransaction_queue.
  assert (H1 : all_positive [queued tx]).
  { constructor; [apply queued_value_positive, Htx | constructor]. }
  destruct (5000 <=? JS.length (txQueue s))%Z; apply Forall_app; split;
    try assumption.
  apply all_positive_skipn, Hq.
Qed.

Lemma tick_positive (mounted : bool) (d : Draws) (s : State) :
  all_positive (txQueue s) ->
  all_positive (txQueue (next (processNextTransaction mounted d s))).
Proof.
  intros H. destruct (tick_queue mounted d s) as [->|[tx E]]; [exact H|].
  rewrite E in H. inversion H; assumption.
Qed.

Lemma queue_all_positive (evs : list Event) :
  Forall plausibleEvent evs -> all_positive (txQueue (run evs initial)).
Proof.
  apply (run_invariant (fun s => all_positive (txQueue s)) plausibleEvent).
  - intros s [tx | mounted d |] Hs Hev; simpl.
    + apply handleNewTransaction_positive; assumption.
    + apply tick_positive, Hs.
    + exact Hs.
  - constructor.
Qed.

End Queue.

(** ** Trigger methods of the audio engine *)

Section Triggers.

Import AudioEngine.

Lemma ready_inv (e : Engine) :
  ready e ->
  exists c g, ctx e = Some c /\ masterGain e = Some g /\ state c = running.
Proof.
  unfold ready. destruct (ctx e) as [c|]; [|contradiction].
  destruct (masterGain e) as [g|]; [|contradiction].
  intros H. exists c, g. auto.
Qed.

Lemma tierOf_positive (btcValue : R) :
  0 < btcValue -> exists t, tierOf btcValue = Some t.
Proof.
  intros H. unfold tierOf. rewrite (proj2 (leb_false btcValue 0) H).
  destruct (JS.geb btcValue 1.0); [eauto|].
  destruct (JS.geb btcValue 0.1); [eauto|].
  destruct (JS.geb btcValue 0.01); eauto.
Qed.

Lemma tierOf_not_positive (btcValue : R) :
  btcValue <= 0 -> tierOf btcValue = None.
Proof.
  intros H. unfold tierOf. rewrite (proj2 (leb_true btcValue 0) H). reflexivity.
Qed.

(** On a ready engine every tier starts exactly one voice and returns. *)
Lemma strike_ready (e : Engine) (btcValue : R) (t : Tier) :
  ready e -> exists voice, strike e btcValue t = ([voice], Returned).
Proof.
  intros He. destruct (ready_inv e He) as [c [g [Ec [Eg _]]]].
  destruct t; simpl.
  - unfold createWhaleStrike. rewrite Ec, Eg. eauto.
  - destruct (frequency_defined 0.1 1.0 btcValue) as [f [Ef _]]; try lra.
    unfold createSteelDrumStrike. rewrite Ec, Eg, Ef. eauto.
  - destruct (frequency_defined 0.01 0.1 btcValue) as [f [Ef _]]; try lra.
    unfold createMarimbaStrike. rewrite Ec, Eg, Ef. eauto.
  - destruct (frequency_defined 0.00001 0.01 btcValue) as [f [Ef _]]; try lra.
    unfold createUkulelePluck. rewrite Ec, Eg, Ef. eauto.
Qed.


Lemma playTransaction_running (e : Engine) (rnd valueSats : R) (beatPos : Z) :
  ready e ->
  playTransaction e rnd valueSats beatPos
  = let btcValue := valueSats / 100000000 in
    let skank :=
      if isSkankBeat beatPos && (JS.gtb btcValue 0 || JS.ltb rnd 0.3)
      then createOrganSkank e 392.00 else [] in
    match tierOf btcValue with
    | None => mkResult e skank Returned
    | Some t => let (vs, k) := strike e btcValue t in
                mkResult e (skank ++ vs) k
    end.
Proof.
  intros He. destruct (ready_inv e He) as [c [g [Ec [Eg Es]]]].
  unfold playTransaction. rewrite Ec, Es. reflexivity.
Qed.

(** A positive value: the accent on a skank beat, whatever the draw, and
    then the voice of the tier. *)
Lemma playTransaction_positive (e : Engine) (rnd valueSats : R) (beatPos : Z) :
  ready e -> 0 < valueSats ->
  exists t voice,
    tierOf (valueSats / 100000000) = Some t
    /\ strike e (valueSats / 100000000) t = ([voice], Returned)
    /\ playTransaction e rnd valueSats beatPos
       = mkResult e
           ((if isSkankBeat beatPos then createOrganSkank e 392.00 else [])
            ++ [voice])
           Returned.
Proof.
  intros He Hv.
  assert (Hb : 0 < valueSats / 100000000) by lra.
  destruct (tierOf_positive _ Hb) as [t Et].
  destruct (strike_ready e (valueSats / 100000000) t He) as [voice Ev].
  exists t, voice. split; [exact Et|]. split; [exact Ev|].
  rewrite playTransaction_running by exact He. cbv zeta.
  rewrite Et, Ev. unfold JS.gtb. rewrite (proj2 (ltb_true _ _) Hb).
  rewrite orb_true_l, andb_true_r. reflexivity.
Qed.

(** A ghost cue (value 0): no pitched voice, and the accent on a skank
    beat exactly when the draw is below 0.3. *)
Lemma playTransaction_ghost (e : Engine) (rnd : R) (beatPos : Z) :
  ready e ->
  playTransaction e rnd 0 beatPos
  = mkResult e
      (if isSkankBeat beatPos && JS.ltb rnd 0.3
       then createOrganSkank e 392.00 else [])
      Returned.
Proof.
  intros He. rewrite playTransaction_running by exact He. cbv zeta.
  replace (0 / 100000000) with 0 by lra.
  rewrite tierOf_not_positive by lra.
  unfold JS.gtb. rewrite (proj2 (ltb_false 0 0)) by lra. reflexivity.
Qed.

Lemma playTransaction_guard (e : Engine) (rnd valueSats : R) (beatPos : Z) :
  notRunning e ->
  playTransaction e rnd valueSats beatPos = mkResult e [] Returned.
Proof.
  unfold notRunning, playTransaction. destruct (ctx e) as [c|]; [|reflexivity].
  intros H. destruct (state c); try reflexivity. contradiction.
Qed.

Lemma playBlockConfirm_guard (e : Engine) :
  ctx e = None \/ masterGain e = None ->
  playBlockConfirm e = mkResult e [] Returned.
Proof.
  unfold playBlockConfirm. intros [H|H]; rewrite H; [reflexivity|].
  destruct (ctx e); reflexivity.
Qed.

(** With a context and a master gain the chime plays, in whatever state
    the context is. *)
Lemma playBlockConfirm_chimes (e : Engine) (c : AudioContext) (g : R) :
  ctx e = Some c -> masterGain e = Some g ->
  playBlockConfirm e
  = mkResult e
      (mapi (chimeVoice (currentTime c)) 0 [196; 246.94; 293.66; 392])
      Returned.
Proof.
  intros Ec Eg. unfold playBlockConfirm, playStartupChime.
  rewrite Ec, Eg. reflexivity.
Qed.


End Triggers.

(** ** The dispatcher tick *)

Section Dispatcher.

Import App.

Lemma rem_2_even (b : Z) : (Z.rem b 2 =? 0)%Z = Z.even b.
Proof.
  destruct (Z.even b) eqn:E.
  - apply Z.eqb_eq. apply Z.even_spec in E. destruct E as [m ->].
    rewrite Z.mul_comm. apply Z.rem_mul. lia.
  - apply Z.eqb_neq. intros H. apply Z.rem_divide in H; [|lia].
    destruct H as [m ->]. rewrite Z.mul_comm, Z.even_mul in E. discriminate.
Qed.

Lemma stepDuration_spec (mounted : bool) (d : Draws) (s : State) :
  stepDuration (processNextTransaction mounted d s)
  = spec_stepDuration BASE_INTERVAL (JS.length (txQueue s)) (beatIndex s).
Proof.
  unfold processNextTransaction. cbv zeta.
  match goal with
  | |- context [let '(q, c) := ?X in _] => destruct X
  end.
  cbn [stepDuration]. unfold spec_stepDuration.
  rewrite rem_2_even, Z.gtb_ltb. reflexivity.
Qed.

Lemma spec_stepDuration_floor (base : R) (qLen b : Z) :
  40 <= spec_stepDuration base qLen b.
Proof. unfold spec_stepDuration. apply Rmax_l. Qed.

(** What a tick does: nothing, a ghost cue, or the head of the queue sent
    to the engine and, when mounted, to the visualizer. *)
Lemma tick_outcome (mounted : bool) (d : Draws) (s : State) :
  (txQueue (next (processNextTransaction mounted d s)) = txQueue s
   /\ (calls (processNextTransaction mounted d s) = []
       \/ calls (processNextTransaction mounted d s)
          = [PlayTransaction 0 (beatIndex s)]))
  \/ (exists tx rest more,
        txQueue s = tx :: rest
        /\ txQueue (next (processNextTransaction mounted d s)) = rest
        /\ calls (processNextTransaction mounted d s)
           = PlayTransaction (JS.or_else (q_value tx) 0) (beatIndex s) :: more
        /\ forall rnd e, flat_map (sound e rnd) more = []).
Proof.
  unfold processNextTransaction. cbv zeta.
  destruct ((0 <? JS.length (txQueue s))%Z && _).
  - destruct (txQueue s) as [|tx rest]; cbn; [left; auto|].
    right. exists tx, rest. eexists. repeat split.
    intros rnd e. destruct mounted; reflexivity.
  - destruct (_ && _); cbn; left; auto.
Qed.

(** A draw below 0.6 plays on every beat: the tick takes the head of a
    queue that is not empty. *)
Lemma tick_pops (mounted : bool) (d : Draws) (s : State) (tx : QueuedTx)
    (rest : list QueuedTx) :
  txQueue s = tx :: rest -> rnd_play d < 0.6 ->
  txQueue (next (processNextTransaction mounted d s)) = rest.
Proof.
  intros Hq Hd. unfold processNextTransaction. cbv zeta. rewrite Hq.
  assert (Hlen : (0 <? JS.length (tx :: rest))%Z = true).
  { apply Z.ltb_lt. unfold JS.length. simpl List.length. lia. }
  rewrite Hlen.
  assert (Hplay : JS.ltb (rnd_play d)
                    (if (Z.rem (beatIndex s) 4 =? 0)%Z then 0.95 else 0.6)
                  = true).
  { apply ltb_true. destruct (Z.rem (beatIndex s) 4 =? 0)%Z; lra. }
  rewrite Hplay. reflexivity.
Qed.

Lemma or_else_positive (v : R) : 0 < v -> JS.or_else v 0 = v.
Proof.
  intros H. unfold JS.or_else. rewrite (proj2 (truthy_true v)) by lra.
  reflexivity.
Qed.

Lemma pop_changes_queue {A : Type} (x : A) (l : list A) : l <> x :: l.
Proof.
  intros H. apply (f_equal (@List.length A)) in H. simpl in H. lia.
Qed.

End Dispatcher.

(** C7: on every dispatcher tick with queue length qLen and beat index b,
    swingFactor is 1.8 if qLen > 100 and 1.4 otherwise; the raw step
    duration is base * swingFactor on even beats and
    base * (2 - swingFactor) on odd beats, with base = 200; that value is
    divided by min(2.5, 1 + qLen/150) and the result is floored at 40: the
    scheduled step duration is at least 40 whatever the inputs. *)
Theorem step_duration_swing_and_floor (mounted : bool) (d : App.Draws)
    (s : App.State) :
  let qLen := JS.length (App.txQueue s) in
  let b := App.beatIndex s in
  let swingFactor := if (qLen >? 100)%Z then 1.8 else 1.4 in
  let raw := if Z.even b then 200 * swingFactor
             else 200 * (2 - swingFactor) in
  App.stepDuration (App.processNextTransaction mounted d s)
    = Rmax 40 (raw / Rmin 2.5 (1 + IZR qLen / 150))
  /\ App.stepDuration (App.processNextTransaction mounted d s)
     = App.spec_stepDuration App.BASE_INTERVAL qLen b
  /\ 40 <= App.stepDuration (App.processNextTransaction mounted d s).
Proof.
  cbv zeta. rewrite stepDuration_spec.
  split; [reflexivity|]. split; [reflexivity|].
  apply spec_stepDuration_floor.
Qed.

(** ** The queue cap *)

Lemma backlog_length (n : Z) :
  (0 <= n)%Z -> JS.length (App.txQueue (Samples.backlog n)) = n.
Proof.
  intros H. unfold Samples.backlog, JS.length. cbn [App.txQueue].
  rewrite repeat_length. lia.
Qed.

(** C1, as the specification states it, fails: a push on a queue of 5000
    entries takes the length over the cap, the trim drops 500 of the 5001
    and leaves 4501, which is more than 4500; and a push on 5200 entries
    leaves 4701, which is more than 4700. *)
Lemma queue_trim_leaves_4501 :
  JS.length (App.txQueue (Samples.backlog 5000)) = 5000%Z
  /\ JS.length
       (App.txQueue
          (App.handleNewTransaction Samples.smallTx (Samples.backlog 5000)))
     = 4501%Z
  /\ ~ (JS.length
          (App.txQueue
             (App.handleNewTransaction Samples.smallTx (Samples.backlog 5000)))
        <= 4500)%Z
  /\ ~ (JS.length
          (App.txQueue
             (App.handleNewTransaction Samples.smallTx (Samples.backlog 5200)))
        <= 4700)%Z.
Proof.
  assert (H0 : JS.length (App.txQueue (Samples.backlog 5000)) = 5000%Z)
    by (apply backlog_length; lia).
  assert (H2 : JS.length (App.txQueue (Samples.backlog 5200)) = 5200%Z)
    by (apply backlog_length; lia).
  destruct (handleNewTransaction_trims Samples.smallTx (Samples.backlog 5000))
    as [_ E0]; [lia|].
  destruct (handleNewTransaction_trims Samples.smallTx (Samples.backlog 5200))
    as [_ E2]; [lia|].
  rewrite E0, E2, H0, H2. repeat split; lia.
Qed.

(** C1 (amended): the pending queue never holds more than 5000 entries,
    in any session and after every enqueue on a queue within the cap.  An
    insert that finds 5000 entries or more drops the 500 oldest in one
    bulk trim and keeps the rest in order with the new entry last, so the
    length after it is the length before minus 499: 4501 after the insert
    that exceeds the cap, 4701 from a queue of 5200.  Below 5000 entries
    the new entry is appended and nothing is dropped. *)
Theorem queue_cap :
  (forall evs, (JS.length (App.txQueue (App.run evs App.initial)) <= 5000)%Z)
  /\ (forall tx s,
        (JS.length (App.txQueue s) <= 5000)%Z ->
        (JS.length (App.txQueue (App.handleNewTransaction tx s)) <= 5000)%Z)
  /\ (forall tx s,
        (5000 <= JS.length (App.txQueue s))%Z ->
        App.txQueue (App.handleNewTransaction tx s)
          = skipn 500 (App.txQueue s) ++ [App.queued tx]
        /\ JS.length (App.txQueue (App.handleNewTransaction tx s))
           = (JS.length (App.txQueue s) - 499)%Z)
  /\ (forall tx s,
        (JS.length (App.txQueue s) < 5000)%Z ->
        App.txQueue (App.handleNewTransaction tx s)
          = App.txQueue s ++ [App.queued tx]).
Proof.
  split; [exact queue_never_over_cap|].
  split; [exact handleNewTransaction_capped|].
  split; [exact handleNewTransaction_trims | exact handleNewTransaction_appends].
Qed.

Lemma queue_cap_witness :
  App.txQueue (App.handleNewTransaction Samples.bareTx (Samples.backlog 5200))
    = skipn 500 (App.txQueue (Samples.backlog 5200))
      ++ [App.queued Samples.bareTx]
  /\ JS.length
       (App.txQueue
          (App.handleNewTransaction Samples.bareTx (Samples.backlog 5200)))
     = (JS.length (App.txQueue (Samples.backlog 5200)) - 499)%Z.
Proof.
  apply (proj1 (proj2 (proj2 queue_cap))).
  rewrite backlog_length; lia.
Defined.

(** ** Queued values *)

(** C9: when the value and vsize of every ingested record are, if
    present, not negative, the object that [handleNewTransaction] pushes
    has a positive value: the record's own value when that is not zero,
    else vsize * 120 when vsize is positive, else 10000.  So every
    transaction that a tick pops and forwards to [playTransaction] carries
    a positive value, for which [playTransaction] selects an instrument
    tier and, on a running engine, starts its voice. *)
Theorem queued_value_positive_and_pitched :
  (forall tx, App.plausible tx ->
     0 < App.q_value (App.queued tx)
     /\ (forall v, App.value tx = Some v -> v <> 0 ->
           App.q_value (App.queued tx) = v)
     /\ (App.value tx = None \/ App.value tx = Some 0 ->
         (forall vs, App.vsize tx = Some vs -> 0 < vs ->
            App.q_value (App.queued tx) = vs * 120)
         /\ (App.vsize tx = None \/ App.vsize tx = Some 0 ->
             App.q_value (App.queued tx) = 10000)))
  /\ (forall evs tx, Forall App.plausibleEvent evs -> App.plausible tx ->
        App.all_positive
          (App.txQueue (App.handleNewTransaction tx (App.run evs App.initial))))
  /\ (forall evs mounted d tx rest,
        Forall App.plausibleEvent evs ->
        App.txQueue (App.run evs App.initial) = tx :: rest ->
        App.txQueue
          (App.next (App.processNextTransaction mounted d
                       (App.run evs App.initial))) = rest ->
        exists v more,
          0 < v
          /\ App.calls (App.processNextTransaction mounted d
                          (App.run evs App.initial))
             = App.PlayTransaction v (App.beatIndex (App.run evs App.initial))
               :: more
          /\ (forall rnd e, flat_map (App.sound e rnd) more = [])
          /\ (exists t, AudioEngine.tierOf (v / 100000000) = Some t)
          /\ (forall e rnd p, AudioEngine.ready e ->
                exists t voice,
                  AudioEngine.tierOf (v / 100000000) = Some t
                  /\ AudioEngine.strike e (v / 100000000) t
                     = ([voice], AudioEngine.Returned)
                  /\ AudioEngine.playTransaction e rnd v p
                     = AudioEngine.mkResult e
                         ((if AudioEngine.isSkankBeat p
                           then AudioEngine.createOrganSkank e 392.00
                           else []) ++ [voice])
                         AudioEngine.Returned)).
Proof.
  split.
  { intros tx Htx. split; [apply queued_value_positive, Htx|].
    split; [intros v; apply queued_value_present|].
    intros Hmiss. rewrite (queued_value_missing tx Hmiss). split.
    - intros vs -> Hvs. rewrite (proj2 (truthy_true vs)) by lra. reflexivity.
    - intros [-> | ->]; [reflexivity|].
      rewrite (proj2 (truthy_false 0) eq_refl). reflexivity. }
  split.
  { intros evs tx Hevs Htx. apply handleNewTransaction_positive; [exact Htx|].
    apply queue_all_positive, Hevs. }
  intros evs mounted d tx rest Hevs Hq Hpop.
  pose proof (queue_all_positive evs Hevs) as Hpos.
  rewrite Hq in Hpos. pose proof (Forall_inv Hpos) as Hv. simpl in Hv.
  destruct (tick_outcome mounted d (App.run evs App.initial))
    as [[Hsame _] | [tx' [rest' [more [Hq' [_ [Hcalls Hmore]]]]]]].
  - exfalso. rewrite Hpop, Hq in Hsame. exact (pop_changes_queue _ _ Hsame).
  - rewrite Hq in Hq'. injection Hq' as <- <-.
    rewrite (or_else_positive _ Hv) in Hcalls.
    exists (App.q_value tx), more.
    split; [exact Hv|]. split; [exact Hcalls|]. split; [exact Hmore|].
    split; [apply tierOf_positive; lra|].
    intros e rnd p He. apply playTransaction_positive; assumption.
Qed.

Lemma queued_value_positive_and_pitched_witness :
  exists v more,
    0 < v
    /\ App.calls (App.processNextTransaction true Samples.alwaysPlay
                    (App.run Samples.oneArrival App.initial))
       = App.PlayTransaction v
           (App.beatIndex (App.run Samples.oneArrival App.initial))
         :: more
    /\ (forall rnd e, flat_map (App.sound e rnd) more = [])
    /\ (exists t, AudioEngine.tierOf (v / 100000000) = Some t)
    /\ (forall e rnd p, AudioEngine.ready e ->
          exists t voice,
            AudioEngine.tierOf (v / 100000000) = Some t
            /\ AudioEngine.strike e (v / 100000000) t
               = ([voice], AudioEngine.Returned)
            /\ AudioEngine.playTransaction e rnd v p
               = AudioEngine.mkResult e
                   ((if AudioEngine.isSkankBeat p
                     then AudioEngine.createOrganSkank e 392.00
                     else []) ++ [voice])
                   AudioEngine.Returned).
Proof.
  apply (proj2 (proj2 queued_value_positive_and_pitched)
           Samples.oneArrival true Samples.alwaysPlay
           (App.queued Samples.bareTx) []).
  - constructor; [split; simpl; [exact I | lra] | constructor].
  - reflexivity.
  - apply (tick_pops true Samples.alwaysPlay _ (App.queued Samples.bareTx) []);
      [reflexivity | simpl; lra].
Defined.

(** ** Guards of the trigger methods *)

(** C5, as the specification states it, fails for [playBlockConfirm]: on
    an engine whose context is suspended, so not running, it starts the
    four voices of the chime. *)
Lemma playBlockConfirm_chimes_while_suspended :
  AudioEngine.notRunning Samples.suspendedEngine
  /\ List.length
       (AudioEngine.voices (AudioEngine.playBlockConfirm Samples.suspendedEngine))
     = 4%nat
  /\ AudioEngine.playBlockConfirm Samples.suspendedEngine
     <> AudioEngine.mkResult Samples.suspendedEngine [] AudioEngine.Returned.
Proof.
  split; [simpl; discriminate|].
  split; [reflexivity|].
  intros H. apply (f_equal AudioEngine.voices) in H. discriminate H.
Qed.

(** C5 (amended): [playTransaction] is a no-op, with no voice, the engine
    unchanged and nothing thrown, whenever the audio context is absent or
    not in the running state.  [playBlockConfirm] is such a no-op whenever
    the context or the master gain is absent; it never throws and never
    changes the engine, and it does not look at the state of the context:
    with a context and a master gain it starts the four voices of the
    chime. *)
Theorem trigger_guards :
  (forall e rnd valueSats beatPos,
     AudioEngine.notRunning e ->
     AudioEngine.playTransaction e rnd valueSats beatPos
     = AudioEngine.mkResult e [] AudioEngine.Returned)
  /\ (forall e,
        AudioEngine.ctx e = None \/ AudioEngine.masterGain e = None ->
        AudioEngine.playBlockConfirm e
        = AudioEngine.mkResult e [] AudioEngine.Returned)
  /\ (forall e,
        AudioEngine.engine (AudioEngine.playBlockConfirm e) = e
        /\ AudioEngine.completion (AudioEngine.playBlockConfirm e)
           = AudioEngine.Returned)
  /\ (forall e c g,
        AudioEngine.ctx e = Some c -> AudioEngine.masterGain e = Some g ->
        AudioEngine.voices (AudioEngine.playBlockConfirm e)
        = AudioEngine.mapi (AudioEngine.chimeVoice (AudioEngine.currentTime c))
            0 [196; 246.94; 293.66; 392]).
Proof.
  split; [exact playTransaction_guard|].
  split; [exact playBlockConfirm_guard|].
  split.
  - intros e. destruct (AudioEngine.ctx e) as [c|] eqn:Ec.
    + destruct (AudioEngine.masterGain e) as [g|] eqn:Eg.
      * rewrite (playBlockConfirm_chimes e c g Ec Eg). auto.
      * rewrite playBlockConfirm_guard by auto. auto.
    + rewrite playBlockConfirm_guard by auto. auto.
  - intros e c g Ec Eg. rewrite (playBlockConfirm_chimes e c g Ec Eg).
    reflexivity.
Qed.

Lemma trigger_guards_witness :
  AudioEngine.playTransaction Samples.suspendedEngine 0.1 250000000 4
  = AudioEngine.mkResult Samples.suspendedEngine [] AudioEngine.Returned.
Proof.
  apply (proj1 trigger_guards). simpl. discriminate.
Defined.

(** ** The skank accent *)

Lemma or_else_self (v : R) : JS.or_else v 0 = v.
Proof.
  unfold JS.or_else, JS.truthy. destruct (Req_dec_T v 0) as [->|]; reflexivity.
Qed.





(** ** Removal of particles *)

Section Particles.

Import Visualizer.

Lemma nth_error_middle {A : Type} (pre : list A) (b : A) (post : list A) :
  nth_error (pre ++ b :: post) (List.length pre) = Some b.
Proof. induction pre as [|a pre IH]; [reflexivity | exact IH]. Qed.

Lemma splice1_middle {A : Type} (pre : list A) (b : A) (post : list A) :
  JS.splice1 (List.length pre) (pre ++ b :: post) = pre ++ post.
Proof.
  unfold JS.splice1. induction pre as [|a pre IH]; [reflexivity|].
  simpl. f_equal. exact IH.
Qed.

Lemma store_middle {A : Type} (pre : list A) (b b' : A) (post : list A) :
  JS.store (List.length pre) b' (pre ++ b :: post) = pre ++ b' :: post.
Proof.
  induction pre as [|a pre IH]; [reflexivity|]. simpl. f_equal. exact IH.
Qed.

(** The backward loop with its in-place removals leaves what a filter
    over the drifted bubbles leaves: the bubbles after index [n] are not
    touched by the iterations below [n]. *)
Lemma render_loop_filter (time : R) (mouse : R * R) (pre : list Bubble) :
  forall (post : list Bubble) (hover : option Bubble),
    fst (render_loop time mouse (List.length pre) (pre ++ post) hover)
    = filter survives (map (drift time) pre) ++ post.
Proof.
  induction pre as [|b pre IH] using rev_ind; intros post hover.
  - reflexivity.
  - rewrite length_app, Nat.add_1_r, <- app_assoc. simpl app.
    simpl render_loop. rewrite nth_error_middle.
    rewrite map_app, filter_app, <- app_assoc. simpl map. simpl filter.
    unfold survives at 2.
    destruct (expired (drift time b)); simpl negb; cbv iota.
    + rewrite splice1_middle. apply IH.
    + rewrite store_middle. apply IH.
Qed.

Lemma render_bubbles_filter (time : R) (mouse : R * R) (bs : list Bubble) :
  render_bubbles time mouse bs = filter survives (map (drift time) bs).
Proof.
  unfold render_bubbles.
  rewrite <- (app_nil_r bs) at 2. rewrite render_loop_filter.
  apply app_nil_r.
Qed.

Lemma render_bubbles_of_render (time : R) (mouse : R * R) (over : bool)
    (s : State) :
  bubbles (fst (render time mouse over s))
  = render_bubbles time mouse (bubbles s).
Proof.
  unfold render, render_bubbles.
  destruct (render_loop time mouse (List.length (bubbles s)) (bubbles s) None).
  reflexivity.
Qed.

Lemma expired_spec (b : Bubble) :
  expired b = true <-> life b <= 0 \/ y b + radius b * 3 < 0.
Proof.
  unfold expired. rewrite orb_true_iff, leb_true, ltb_true. tauto.
Qed.

Lemma survives_spec (b : Bubble) :
  survives b = true <-> 0 < life b /\ 0 <= y b + radius b * 3.
Proof.
  unfold survives. rewrite negb_true_iff, <- not_true_iff_false, expired_spec.
  split; [intros H; split; lra | intros [H1 H2] [H|H]; lra].
Qed.

Lemma survivor_spec (time : R) (mouse : R * R) (bs : list Bubble)
    (b' : Bubble) :
  In b' (render_bubbles time mouse bs)
  <-> (exists b, In b bs /\ b' = drift time b)
      /\ 0 < life b' /\ 0 <= y b' + radius b' * 3.
Proof.
  rewrite render_bubbles_filter, filter_In, in_map_iff, survives_spec.
  split; intros [[b [H1 H2]] H3]; (split; [exists b|]); auto.
Qed.

End Particles.



(** ** Worked scenarios *)

Section Scenarios.

Ltac minmax :=
  unfold Rmax, Rmin;
  repeat match goal with
    | |- context [Rle_dec ?a ?b] => destruct (Rle_dec a b)
    end; try lra.

(** A transaction of 2.5 BTC: a whale, drawn at the largest radius and
    played by the whale voice. *)
Example scenario_whale :
  Visualizer.isWhale_of 250000000 = true
  /\ Visualizer.radius_of 250000000 = 180
  /\ AudioEngine.tierOf (250000000 / 100000000) = Some AudioEngine.Whale.
Proof.
  split; [unfold Visualizer.isWhale_of, Visualizer.btc_of; js_cmp; reflexivity|].
  split; [apply radius_of_saturates; lra|].
  unfold AudioEngine.tierOf. js_cmp. reflexivity.
Qed.

(** A transaction of 500,000 satoshis at 200 sat/vB: hue 36, and the
    pluck tier. *)
Example scenario_pluck :
  Visualizer.getHueFromFeeRate 200 = 36
  /\ Visualizer.isWhale_of 500000 = false
  /\ AudioEngine.tierOf (500000 / 100000000) = Some AudioEngine.Pluck.
Proof.
  split; [unfold Visualizer.getHueFromFeeRate; minmax|].
  split; [unfold Visualizer.isWhale_of, Visualizer.btc_of; js_cmp; reflexivity|].
  unfold AudioEngine.tierOf. js_cmp. reflexivity.
Qed.

(** The swing pair on an empty queue, 280 then 120, and the floor under a
    long queue on an odd beat. *)
Example scenario_step_durations :
  App.spec_stepDuration 200 0 0 = 280
  /\ App.spec_stepDuration 200 0 1 = 120
  /\ App.spec_stepDuration 200 300 1 = 40.
Proof.
  assert (E0 : Rmin 2.5 (1 + 0 / 150) = 1) by minmax.
  assert (E3 : Rmin 2.5 (1 + 300 / 150) = 2.5) by minmax.
  unfold App.spec_stepDuration. cbv zeta.
  change (0 >? 100)%Z with false. change (300 >? 100)%Z with true.
  change (Z.even 0) with true. change (Z.even 1) with false. cbv iota.
  rewrite E0, E3. repeat split; minmax.
Qed.

(** On binary64 as on the reals: the hue is 210 at 1 sat/vB and below 209
    at the next number above 1, and the radius at value 0 is 30. *)
Example scenario_binary64 :
  Binary64.getHueFromFeeRate 1 = 210%float
  /\ PrimFloat.ltb (Binary64.getHueFromFeeRate (PrimFloat.next_up 1)) 209 = true
  /\ Binary64.radius_of 0 = 30%float.
Proof. repeat split; reflexivity. Qed.

End Scenarios.

(** * Further properties of the code *)

(** ** The beat clock and the queue over a session *)

Section Sessions.

Import App.

Lemma tick_beat (mounted : bool) (d : Draws) (s : State) :
  beatIndex (next (processNextTransaction mounted d s))
  = Z.rem (beatIndex s + 1) 16.
Proof.
  unfold processNextTransaction. cbv zeta.
  match goal with
  | |- context [let '(q, c) := ?X in _] => destruct X
  end.
  reflexivity.
Qed.

Lemma run_cons (ev : Event) (evs : list Event) (s : State) :
  run (ev :: evs) s = run evs (step s ev).
Proof. reflexivity. Qed.

Lemma beat_after (evs : list Event) :
  forall s, (0 <= beatIndex s < 16)%Z ->
    beatIndex (run evs s)
    = ((beatIndex s + Z.of_nat (Session.ticks evs)) mod 16)%Z.
Proof.
  induction evs as [|ev evs IH]; intros s Hs.
  - simpl. rewrite Z.add_0_r, Z.mod_small; lia.
  - rewrite run_cons. destruct ev as [tx | mounted d |].
    + rewrite IH by exact Hs. reflexivity.
    + assert (Hb : beatIndex (step s (Ticks mounted d))
                   = ((beatIndex s + 1) mod 16)%Z).
      { simpl. rewrite tick_beat. apply Z.rem_mod_nonneg; lia. }
      rewrite IH by (rewrite Hb; apply Z.mod_pos_bound; lia).
      rewrite Hb. unfold Session.ticks. simpl filter. simpl List.length.
      rewrite Zplus_mod_idemp_l. f_equal. lia.
    + rewrite IH by exact Hs. reflexivity.
Qed.

(** What a push leaves of the queue it finds. *)
Lemma handleNewTransaction_drops (tx : RawTx) (s : State) :
  exists gone,
    txQueue s ++ [queued tx] = gone ++ txQueue (handleNewTransaction tx s).
Proof.
  rewrite handleNewTransaction_queue.
  destruct (5000 <=? JS.length (txQueue s))%Z.
  - exists (firstn 500 (txQueue s)). unfold JS.splice0.
    rewrite app_assoc, firstn_skipn. reflexivity.
  - exists []. reflexivity.
Qed.

Lemma queue_is_suffix (evs : list Event) :
  forall s, exists gone,
    txQueue s ++ Session.arrived evs = gone ++ txQueue (run evs s).
Proof.
  induction evs as [|ev evs IH]; intros s.
  - exists []. simpl. apply app_nil_r.
  - rewrite run_cons. destruct (IH (step s ev)) as [gone' E].
    destruct ev as [tx | mounted d |]; simpl step in *.
    + destruct (handleNewTransaction_drops tx s) as [gone E1].
      exists (gone ++ gone').
      change (Session.arrived (Arrives tx :: evs))
        with ([queued tx] ++ Session.arrived evs).
      rewrite app_assoc, E1, <- !app_assoc, E. reflexivity.
    + change (Session.arrived (Ticks mounted d :: evs))
        with (Session.arrived evs).
      destruct (tick_queue mounted d s) as [Hsame | [tx Hpop]].
      * exists gone'. rewrite <- Hsame. exact E.
      * exists (tx :: gone'). rewrite Hpop. simpl. f_equal. exact E.
    + exists gone'. exact E.
Qed.

(** The calls of a tick, case by case. *)
Lemma tick_calls (mounted : bool) (d : Draws) (s : State) :
  (txQueue (next (processNextTransaction mounted d s)) = txQueue s
   /\ (calls (processNextTransaction mounted d s) = []
       \/ calls (processNextTransaction mounted d s)
          = [PlayTransaction 0 (beatIndex s)]))
  \/ (exists tx rest,
        txQueue s = tx :: rest
        /\ txQueue (next (processNextTransaction mounted d s)) = rest
        /\ calls (processNextTransaction mounted d s)
           = PlayTransaction (JS.or_else (q_value tx) 0) (beatIndex s)
             :: (if mounted
                 then [AddTransaction (JS.str_or_else (q_txid tx) (q_id tx))
                         (JS.or_else (q_value tx) 0)
                         (if JS.number_truthy (q_feeRate tx)
                          then q_feeRate tx else JS.Num 1)]
                 else [])).
Proof.
  unfold processNextTransaction. cbv zeta.
  destruct ((0 <? JS.length (txQueue s))%Z && _).
  - destruct (txQueue s) as [|tx rest]; cbn; [left; auto|].
    right. exists tx, rest. auto.
  - destruct (_ && _); cbn; left; auto.
Qed.

Lemma empty_queue_tick (mounted : bool) (d : Draws) (s : State) :
  txQueue s = [] ->
  txQueue (next (processNextTransaction mounted d s)) = []
  /\ forall i v f,
       ~ In (AddTransaction i v f) (calls (processNextTransaction mounted d s)).
Proof.
  intros Hq.
  destruct (tick_calls mounted d s) as [[Hsame Hc] | [tx [rest [Hs _]]]].
  - split; [rewrite Hsame; exact Hq|].
    intros i v f Hin. destruct Hc as [Hc | Hc]; rewrite Hc in Hin; simpl in Hin.
    + contradiction.
    + destruct Hin as [H|H]; [discriminate | contradiction].
  - rewrite Hq in Hs. discriminate.
Qed.

End Sessions.

(** X1: The beat index counts the ticks of a session modulo 16: it stays in
    0..15, a tick moves it one step on and from 15 back to 0, and nothing
    else moves it. *)
Theorem beat_index_cycles :
  (forall evs,
     App.beatIndex (App.run evs App.initial)
     = (Z.of_nat (Session.ticks evs) mod 16)%Z
     /\ (0 <= App.beatIndex (App.run evs App.initial) < 16)%Z)
  /\ (forall evs mounted d,
        App.beatIndex
          (App.next (App.processNextTransaction mounted d
                       (App.run evs App.initial)))
        = ((App.beatIndex (App.run evs App.initial) + 1) mod 16)%Z)
  /\ (forall evs tx,
        App.beatIndex (App.handleNewTransaction tx (App.run evs App.initial))
        = App.beatIndex (App.run evs App.initial)).
Proof.
  assert (H : forall evs,
             App.beatIndex (App.run evs App.initial)
             = (Z.of_nat (Session.ticks evs) mod 16)%Z).
  { intros evs. rewrite beat_after by (simpl; lia). reflexivity. }
  split; [|split].
  - intros evs. split; [apply H|]. rewrite H. apply Z.mod_pos_bound. lia.
  - intros evs mounted d. rewrite tick_beat. apply Z.rem_mod_nonneg; [|lia].
    rewrite H. pose proof (Z.mod_pos_bound (Z.of_nat (Session.ticks evs)) 16).
    lia.
  - reflexivity.
Qed.

(** X2: The queue is first in, first out: at any point of a session it is
    the transactions that have arrived, in their order of arrival, without
    some of the earliest; pops and trims only take from the front. *)
Theorem queue_is_fifo (evs : list App.Event) :
  exists gone,
    Session.arrived evs = gone ++ App.txQueue (App.run evs App.initial).
Proof.
  destruct (queue_is_suffix evs App.initial) as [gone E].
  exists gone. exact E.
Qed.

(** X3: A tick makes at most one call of [playTransaction] and at most one
    of [addTransaction], and no other call: it makes no call, or the one
    call of a ghost cue of value 0 with the queue left as it is, or it
    pops the head of the queue and calls [playTransaction] with its value
    on the current beat and then, when the visualizer is mounted,
    [addTransaction] with the same value.  A particle is only spawned for
    the transaction that the tick pops, after the note for the same value
    on the same tick; a ghost cue spawns none, and a tick on an empty
    queue pops and spawns nothing. *)
Theorem note_and_particle_in_lockstep (mounted : bool) (d : App.Draws)
    (s : App.State) :
  let t := App.processNextTransaction mounted d s in
  (List.length (Session.notes (App.calls t)) <= 1)%nat
  /\ (List.length (Session.spawns (App.calls t)) <= 1)%nat
  /\ (List.length (App.calls t)
      = List.length (Session.notes (App.calls t))
        + List.length (Session.spawns (App.calls t)))%nat
  /\ ((App.calls t = [] /\ App.txQueue (App.next t) = App.txQueue s)
      \/ (App.calls t = [App.PlayTransaction 0 (App.beatIndex s)]
          /\ App.txQueue (App.next t) = App.txQueue s)
      \/ (exists tx rest,
            App.txQueue s = tx :: rest
            /\ App.txQueue (App.next t) = rest
            /\ App.calls t
               = App.PlayTransaction (App.q_value tx) (App.beatIndex s)
                 :: (if mounted
                     then [App.AddTransaction
                             (JS.str_or_else (App.q_txid tx) (App.q_id tx))
                             (App.q_value tx)
                             (if JS.number_truthy (App.q_feeRate tx)
                              then App.q_feeRate tx else JS.Num 1)]
                     else [])))
  /\ (List.length (App.calls t) <= 2)%nat
  /\ (forall i v f, In (App.AddTransaction i v f) (App.calls t) ->
        mounted = true
        /\ exists tx rest,
             App.txQueue s = tx :: rest
             /\ App.txQueue (App.next t) = rest
             /\ v = JS.or_else (App.q_value tx) 0
             /\ i = JS.str_or_else (App.q_txid tx) (App.q_id tx)
             /\ App.calls t
                = [App.PlayTransaction v (App.beatIndex s);
                   App.AddTransaction i v f])
  /\ (forall tx rest,
        App.txQueue s = tx :: rest -> App.txQueue (App.next t) = rest ->
        mounted = true ->
        exists i f,
          App.calls t
          = [App.PlayTransaction (JS.or_else (App.q_value tx) 0)
               (App.beatIndex s);
             App.AddTransaction i (JS.or_else (App.q_value tx) 0) f])
  /\ (App.txQueue s = [] ->
      App.txQueue (App.next t) = []
      /\ forall i v f, ~ In (App.AddTransaction i v f) (App.calls t)).
Proof.
  cbv zeta.
  destruct (tick_calls mounted d s)
    as [[Hsame Hc] | [tx [rest [Hs [Hnext Hc]]]]].
  - split.
    { destruct Hc as [-> | ->]; simpl; lia. }
    split.
    { destruct Hc as [-> | ->]; simpl; lia. }
    split.
    { destruct Hc as [-> | ->]; reflexivity. }
    split.
    { destruct Hc as [Hc | Hc]; [left | right; left]; auto. }
    split.
    { destruct Hc as [-> | ->]; simpl; lia. }
    split.
    { intros i v f Hin. destruct Hc as [Hc | Hc]; rewrite Hc in Hin;
        simpl in Hin.
      - contradiction.
      - destruct Hin as [H|H]; [discriminate | contradiction]. }
    split.
    { intros tx rest Hs Hnext _. exfalso. rewrite Hnext, Hs in Hsame.
      exact (pop_changes_queue _ _ Hsame). }
    apply empty_queue_tick.
  - split.
    { rewrite Hc. destruct mounted; simpl; lia. }
    split.
    { rewrite Hc. destruct mounted; simpl; lia. }
    split.
    { rewrite Hc. destruct mounted; reflexivity. }
    split.
    { right; right. exists tx, rest. rewrite Hc, or_else_self. auto. }
    split.
    { rewrite Hc. destruct mounted; simpl; lia. }
    split.
    { intros i v f Hin. rewrite Hc in Hin. destruct mounted; simpl in Hin.
      - destruct Hin as [H | [H | H]]; [discriminate | | contradiction].
        injection H as <- <- <-. split; [reflexivity|].
        exists tx, rest. repeat split; try assumption.
      - destruct Hin as [H | H]; [discriminate | contradiction]. }
    split.
    { intros tx' rest' Hs' _ Hm. rewrite Hs in Hs'. injection Hs' as <- <-.
      rewrite Hc, Hm. eauto. }
    apply empty_queue_tick.
Qed.

(** ** The range of the step duration *)

Section Tempo.

Import App.

Lemma speedUp_bounds (qLen : Z) :
  (0 <= qLen)%Z -> 1 <= Rmin 2.5 (1 + IZR qLen / 150) <= 2.5.
Proof.
  intros H. apply IZR_le in H. unfold Rmin.
  destruct (Rle_dec 2.5 (1 + IZR qLen / 150)); lra.
Qed.

Lemma speedUp_saturated (qLen : Z) :
  (225 <= qLen)%Z -> Rmin 2.5 (1 + IZR qLen / 150) = 2.5.
Proof.
  intros H. apply IZR_le in H. unfold Rmin.
  destruct (Rle_dec 2.5 (1 + IZR qLen / 150)); lra.
Qed.

Lemma speedUp_busy (qLen : Z) :
  (100 < qLen)%Z -> 1.67 <= Rmin 2.5 (1 + IZR qLen / 150).
Proof.
  intros H. assert (H' : (101 <= qLen)%Z) by lia. apply IZR_le in H'.
  unfold Rmin. destruct (Rle_dec 2.5 (1 + IZR qLen / 150)); lra.
Qed.

(** [a / b] between bounds that hold after multiplying out. *)
Lemma div_le (a b c : R) : 0 < b -> a <= c * b -> a / b <= c.
Proof.
  intros Hb H. apply (Rmult_le_reg_r b); [exact Hb|].
  unfold Rdiv. rewrite Rmult_assoc, Rinv_l by lra. lra.
Qed.

Lemma spec_stepDuration_range (qLen b : Z) :
  (0 <= qLen)%Z -> 40 <= spec_stepDuration 200 qLen b <= 280.
Proof.
  intros Hq. split; [apply spec_stepDuration_floor|].
  unfold spec_stepDuration. cbv zeta.
  pose proof (speedUp_bounds qLen Hq) as [H1 H2].
  apply Rmax_lub; [lra|].
  destruct (Z.gtb_spec qLen 100) as [Hbusy|Hcalm].
  - pose proof (speedUp_busy qLen Hbusy).
    destruct (Z.even b); apply div_le; lra.
  - destruct (Z.even b); apply div_le; lra.
Qed.

Lemma spec_stepDuration_saturated (qLen b : Z) :
  (225 <= qLen)%Z ->
  spec_stepDuration 200 qLen b = if Z.even b then 144 else 40.
Proof.
  intros Hq. unfold spec_stepDuration. cbv zeta.
  rewrite (speedUp_saturated qLen Hq).
  destruct (Z.gtb_spec qLen 100); [|lia].
  unfold Rmax.
  destruct (Z.even b);
    match goal with
    | |- context [Rle_dec ?x ?y] => destruct (Rle_dec x y)
    end; lra.
Qed.

Lemma spec_stepDuration_busy_offbeat (qLen b : Z) :
  (100 < qLen)%Z -> Z.even b = false -> spec_stepDuration 200 qLen b = 40.
Proof.
  intros Hq Hb. unfold spec_stepDuration. cbv zeta. rewrite Hb.
  destruct (Z.gtb_spec qLen 100); [|lia].
  pose proof (speedUp_busy qLen Hq) as Hs.
  apply Rmax_left. apply div_le; lra.
Qed.

Lemma queue_length_nonneg (s : State) : (0 <= JS.length (txQueue s))%Z.
Proof. unfold JS.length. lia. Qed.

End Tempo.

(** X5: The delay between two ticks lies between 40 and 280 in every state.
    Once more than 100 transactions wait, every odd beat lasts the
    minimum of 40; from 225 waiting transactions on the tempo no longer
    rises: even beats last 144 and odd beats 40. *)
Theorem step_duration_range (mounted : bool) (d : App.Draws) (s : App.State) :
  let delay := App.stepDuration (App.processNextTransaction mounted d s) in
  40 <= delay <= 280
  /\ ((100 < JS.length (App.txQueue s))%Z ->
      Z.even (App.beatIndex s) = false -> delay = 40)
  /\ ((225 <= JS.length (App.txQueue s))%Z ->
      delay = if Z.even (App.beatIndex s) then 144 else 40).
Proof.
  cbv zeta. rewrite stepDuration_spec. unfold App.BASE_INTERVAL.
  split; [apply spec_stepDuration_range, queue_length_nonneg|].
  split; [apply spec_stepDuration_busy_offbeat
         | apply spec_stepDuration_saturated].
Qed.

(** ** The voices of a transaction *)

Section Voices.

Import AudioEngine.

Lemma tierOf_range (btcValue : R) (t : Tier) :
  tierOf btcValue = Some t ->
  match t with
  | Whale => 1 <= btcValue
  | SteelDrum => 0.1 <= btcValue < 1
  | Marimba => 0.01 <= btcValue < 0.1
  | Pluck => 0 < btcValue < 0.01
  end.
Proof.
  unfold tierOf, JS.geb.
  destruct (JS.leb btcValue 0) eqn:E0; [discriminate|].
  apply leb_false in E0.
  destruct (JS.leb 1.0 btcValue) eqn:E1.
  { intros H; injection H as <-. apply leb_true in E1. lra. }
  apply leb_false in E1.
  destruct (JS.leb 0.1 btcValue) eqn:E2.
  { intros H; injection H as <-. apply leb_true in E2. lra. }
  apply leb_false in E2.
  destruct (JS.leb 0.01 btcValue) eqn:E3.
  { intros H; injection H as <-. apply leb_true in E3. lra. }
  apply leb_false in E3.
  intros H; injection H as <-. lra.
Qed.

Lemma scale_range (f : R) : In f DRUM_FREQUENCIES -> 196 <= f <= 880.
Proof.
  unfold DRUM_FREQUENCIES. simpl.
  intros H. repeat (destruct H as [<- | H]; [lra|]). contradiction.
Qed.

Lemma frequency_range (low high v f : R) :
  0 < low -> low < high ->
  getFrequencyFromValue v low high = Some f -> 196 <= f <= 880.
Proof.
  intros Hl Hh E.
  destruct (frequency_defined low high v Hl Hh) as [f' [E' Hin]].
  rewrite E in E'. injection E' as <-. apply scale_range, Hin.
Qed.

Lemma sqrt_below_1 (x : R) : 0 <= x < 1 -> 0 <= sqrt x < 1.
Proof.
  intros [H0 H1]. split; [apply sqrt_pos|].
  rewrite <- sqrt_1. apply sqrt_lt_1_alt. lra.
Qed.

Lemma organ_bounded (now : R) :
  Forall (Envelope.bounded now)
    (mapi (organVoice now 392.00) 0 [1; 2; 1.5]).
Proof.
  simpl. unfold Envelope.bounded.
  repeat (apply Forall_cons; [simpl; repeat split; lra|]).
  apply Forall_nil.
Qed.

Lemma createOrganSkank_bounded (e : Engine) (c : AudioContext) :
  ctx e = Some c ->
  Forall (Envelope.bounded (currentTime c)) (createOrganSkank e 392.00).
Proof.
  intros Ec. unfold createOrganSkank. rewrite Ec.
  destruct (masterGain e); [apply organ_bounded | apply Forall_nil].
Qed.

Lemma strike_bounded (e : Engine) (c : AudioContext) (btcValue : R)
    (t : Tier) :
  ctx e = Some c -> tierOf btcValue = Some t ->
  Forall (Envelope.bounded (currentTime c)) (fst (strike e btcValue t)).
Proof.
  intros Ec Et. pose proof (tierOf_range btcValue t Et) as Hr.
  destruct t; simpl.
  - unfold createWhaleStrike. rewrite Ec.
    destruct (masterGain e); [|apply Forall_nil].
    apply Forall_cons; [|apply Forall_nil].
    unfold Envelope.bounded. simpl. repeat split; lra.
  - unfold createSteelDrumStrike. rewrite Ec.
    destruct (masterGain e); [|apply Forall_nil].
    destruct (getFrequencyFromValue btcValue 0.1 1.0) as [f|] eqn:Ef;
      [|apply Forall_nil].
    pose proof (frequency_range 0.1 1.0 btcValue f ltac:(lra) ltac:(lra) Ef).
    pose proof (sqrt_below_1 btcValue ltac:(lra)).
    apply Forall_cons; [|apply Forall_nil].
    unfold Envelope.bounded. simpl. repeat split; lra.
  - unfold createMarimbaStrike. rewrite Ec.
    destruct (masterGain e); [|apply Forall_nil].
    destruct (getFrequencyFromValue btcValue 0.01 0.1) as [f|] eqn:Ef;
      [|apply Forall_nil].
    pose proof (frequency_range 0.01 0.1 btcValue f ltac:(lra) ltac:(lra) Ef).
    apply Forall_cons; [|apply Forall_nil].
    unfold Envelope.bounded. simpl. repeat split; lra.
  - unfold createUkulelePluck. rewrite Ec.
    destruct (masterGain e); [|apply Forall_nil].
    destruct (getFrequencyFromValue btcValue 0.00001 0.01) as [f|] eqn:Ef;
      [|apply Forall_nil].
    pose proof (frequency_range 0.00001 0.01 btcValue f ltac:(lra) ltac:(lra) Ef).
    apply Forall_cons; [|apply Forall_nil].
    unfold Envelope.bounded. simpl. repeat split; lra.
Qed.

Lemma strike_returns (e : Engine) (btcValue : R) (t : Tier) :
  snd (strike e btcValue t) = Returned.
Proof.
  destruct t; simpl; [reflexivity| | |].
  - destruct (frequency_defined 0.1 1.0 btcValue) as [f [Ef _]]; try lra.
    unfold createSteelDrumStrike. rewrite Ef.
    destruct (ctx e); [destruct (masterGain e)|]; reflexivity.
  - destruct (frequency_defined 0.01 0.1 btcValue) as [f [Ef _]]; try lra.
    unfold createMarimbaStrike. rewrite Ef.
    destruct (ctx e); [destruct (masterGain e)|]; reflexivity.
  - destruct (frequency_defined 0.00001 0.01 btcValue) as [f [Ef _]]; try lra.
    unfold createUkulelePluck. rewrite Ef.
    destruct (ctx e); [destruct (masterGain e)|]; reflexivity.
Qed.

End Voices.

(** X6: Every voice that [playTransaction] starts, for any value and beat and
    on any engine, starts at the current time of the context, rises to
    its peak, decays and stops in that order within 5.1 seconds, has a
    peak gain above 0 and below 0.45, and a frequency between 49 Hz and
    1760 Hz; without a context no voice starts. *)
Theorem voices_are_bounded (e : AudioEngine.Engine) (rnd valueSats : R)
    (beatPos : Z) :
  match AudioEngine.ctx e with
  | Some c =>
      Forall (Envelope.bounded (AudioEngine.currentTime c))
        (AudioEngine.voices
           (AudioEngine.playTransaction e rnd valueSats beatPos))
  | None =>
      AudioEngine.voices (AudioEngine.playTransaction e rnd valueSats beatPos)
      = []
  end.
Proof.
  unfold AudioEngine.playTransaction.
  destruct (AudioEngine.ctx e) as [c|] eqn:Ec; [|reflexivity].
  destruct (AudioEngine.is_running (AudioEngine.state c)); simpl negb;
    cbv iota; [|apply Forall_nil].
  cbv zeta.
  assert (Hs : Forall (Envelope.bounded (AudioEngine.currentTime c))
                 (if AudioEngine.isSkankBeat beatPos
                     && (JS.gtb (valueSats / 100000000) 0 || JS.ltb rnd 0.3)
                  then AudioEngine.createOrganSkank e 392.00 else [])).
  { destruct (_ && _); [apply createOrganSkank_bounded, Ec | apply Forall_nil]. }
  destruct (AudioEngine.tierOf (valueSats / 100000000)) as [t|] eqn:Et.
  - pose proof (strike_bounded e c _ t Ec Et) as Hv.
    destruct (AudioEngine.strike e (valueSats / 100000000) t) as [vs k].
    simpl in *. apply Forall_app. split; assumption.
  - exact Hs.
Qed.

(** X7: For a value that is a real number, [playTransaction] never throws
    and never changes a field of the engine, whatever the beat and the
    state of the engine: the frequency it looks up in the scale is always
    defined.  ([NaN] is no real number and is not covered: the dispatcher
    passes [tx.value || 0], which is never [NaN].) *)
Theorem playTransaction_never_throws (e : AudioEngine.Engine)
    (rnd valueSats : R) (beatPos : Z) :
  AudioEngine.completion (AudioEngine.playTransaction e rnd valueSats beatPos)
  = AudioEngine.Returned
  /\ AudioEngine.engine (AudioEngine.playTransaction e rnd valueSats beatPos)
     = e.
Proof.
  unfold AudioEngine.playTransaction.
  destruct (AudioEngine.ctx e) as [c|]; [|split; reflexivity].
  destruct (AudioEngine.is_running (AudioEngine.state c)); simpl negb;
    cbv iota; [|split; reflexivity].
  cbv zeta.
  destruct (AudioEngine.tierOf (valueSats / 100000000)) as [t|];
    [|split; reflexivity].
  pose proof (strike_returns e (valueSats / 100000000) t) as Hk.
  destruct (AudioEngine.strike e (valueSats / 100000000) t) as [vs k].
  simpl in *. split; [exact Hk | reflexivity].
Qed.

(** ** The ends of the scale *)

Section ScaleEnds.

Import AudioEngine.

Lemma clamp_above_low (low high v : R) :
  low < high -> low < v -> low < Rmax low (Rmin high v).
Proof.
  intros Hh Hv. unfold Rmin, Rmax.
  destruct (Rle_dec high v);
    match goal with
    | |- context [Rle_dec ?a ?b] => destruct (Rle_dec a b)
    end; lra.
Qed.

Lemma clamp_at_low (low high v : R) :
  low < high -> v <= low -> Rmax low (Rmin high v) = low.
Proof.
  intros Hh Hv. unfold Rmin, Rmax.
  destruct (Rle_dec high v);
    match goal with
    | |- context [Rle_dec ?a ?b] => destruct (Rle_dec a b)
    end; lra.
Qed.

Lemma clamp_at_high (low high v : R) :
  low < high -> high <= v -> Rmax low (Rmin high v) = high.
Proof.
  intros Hh Hv. unfold Rmin, Rmax.
  destruct (Rle_dec high v);
    match goal with
    | |- context [Rle_dec ?a ?b] => destruct (Rle_dec a b)
    end; lra.
Qed.

Lemma ratioOf_positive (low high v : R) :
  0 < low -> low < high -> low < v -> 0 < ratioOf v low high.
Proof.
  intros Hl Hh Hv. unfold ratioOf.
  pose proof (clamp_above_low low high v Hh Hv) as Hc.
  pose proof (log10_lt low _ Hl Hc).
  pose proof (log_span_pos low high Hl Hh).
  apply Rdiv_lt_0_compat; lra.
Qed.

Lemma ratioOf_below (low high v : R) :
  low < high -> v <= low -> ratioOf v low high = 0.
Proof.
  intros Hh Hv. unfold ratioOf. rewrite (clamp_at_low low high v Hh Hv).
  unfold Rdiv, Rminus. rewrite Rplus_opp_r. apply Rmult_0_l.
Qed.

Lemma ratioOf_above (low high v : R) :
  0 < low -> low < high -> high <= v -> ratioOf v low high = 1.
Proof.
  intros Hl Hh Hv. unfold ratioOf. rewrite (clamp_at_high low high v Hh Hv).
  unfold Rdiv. apply Rinv_r. pose proof (log_span_pos low high Hl Hh). lra.
Qed.

Lemma frequencyIndex_top (low high v : R) :
  0 < low -> low < high ->
  (frequencyIndex v low high = 15%Z <-> v <= low).
Proof.
  intros Hl Hh. rewrite (frequencyIndex_unfold low high v). split.
  - intros E. destruct (Rle_dec v low) as [H|H]; [exact H|].
    exfalso.
    pose proof (ratioOf_positive low high v Hl Hh ltac:(lra)) as Hr.
    destruct (Zfloor_bound ((1 - ratioOf v low high) * 15)) as [Hf _].
    rewrite E in Hf. lra.
  - intros Hv. rewrite (ratioOf_below low high v Hh Hv).
    apply Zfloor_eq. lra.
Qed.

Lemma frequency_below_top (low high v : R) :
  0 < low -> low < high -> low < v ->
  exists f, getFrequencyFromValue v low high = Some f /\ f <= 783.99.
Proof.
  intros Hl Hh Hv.
  destruct (frequency_defined low high v Hl Hh) as [f [Ef _]].
  exists f. split; [exact Ef|].
  pose proof (frequencyIndex_bounds low high Hl Hh v) as Hb.
  assert (Hne : frequencyIndex v low high <> 15%Z).
  { intros E. apply (frequencyIndex_top low high v Hl Hh) in E. lra. }
  unfold getFrequencyFromValue in Ef.
  apply (scale_ascends (frequencyIndex v low high) 14 f 783.99);
    [lia | exact Ef | reflexivity].
Qed.

End ScaleEnds.

(** X8: In a tier with bounds 0 < low < high the top note of the scale, 880
    Hz, is chosen exactly for the values at or below the lower bound:
    every value above it gets 783.99 Hz or less.  Every value at or above
    the upper bound gets the bottom note, 196 Hz. *)
Theorem top_note_only_at_lower_bound (low high v : R) :
  0 < low < high ->
  (AudioEngine.frequencyIndex v low high = 15%Z <-> v <= low)
  /\ (v <= low ->
      AudioEngine.getFrequencyFromValue v low high = Some 880.00)
  /\ (low < v ->
      exists f, AudioEngine.getFrequencyFromValue v low high = Some f
                /\ f <= 783.99)
  /\ (high <= v ->
      AudioEngine.getFrequencyFromValue v low high = Some 196.00).
Proof.
  intros [Hl Hh].
  split; [apply frequencyIndex_top; assumption|].
  split.
  { intros Hv. unfold AudioEngine.getFrequencyFromValue.
    rewrite (proj2 (frequencyIndex_top low high v Hl Hh) Hv). reflexivity. }
  split; [apply frequency_below_top; assumption|].
  intros Hv. unfold AudioEngine.getFrequencyFromValue.
  rewrite (frequencyIndex_unfold low high v),
    (ratioOf_above low high v Hl Hh Hv).
  replace ((1 - 1) * 15) with (IZR 0) by lra. rewrite ZfloorZ. reflexivity.
Qed.

Lemma top_note_only_at_lower_bound_witness :
  (AudioEngine.frequencyIndex 0.5 0.1 1 = 15%Z <-> 0.5 <= 0.1)
  /\ (0.5 <= 0.1 ->
      AudioEngine.getFrequencyFromValue 0.5 0.1 1 = Some 880.00)
  /\ (0.1 < 0.5 ->
      exists f, AudioEngine.getFrequencyFromValue 0.5 0.1 1 = Some f
                /\ f <= 783.99)
  /\ (1 <= 0.5 ->
      AudioEngine.getFrequencyFromValue 0.5 0.1 1 = Some 196.00).
Proof.
  apply (top_note_only_at_lower_bound 0.1 1 0.5). lra.
Defined.

(** ** Whales *)

(** X9: The particle engine and the audio engine agree on what a whale is:
    the particle of a transaction is flagged as a whale exactly when the
    value is at least 100,000,000 satoshis, which is exactly when
    [playTransaction] plays the whale voice; and every whale is drawn at
    the largest radius, 180. *)
Theorem whale_is_whale_everywhere (valueSats : R) :
  (Visualizer.isWhale_of valueSats = true <-> 100000000 <= valueSats)
  /\ (Visualizer.isWhale_of valueSats = true
      <-> AudioEngine.tierOf (valueSats / 100000000) = Some AudioEngine.Whale)
  /\ (Visualizer.isWhale_of valueSats = true ->
      Visualizer.radius_of valueSats = 180).
Proof.
  assert (H1 : Visualizer.isWhale_of valueSats = true <-> 100000000 <= valueSats).
  { unfold Visualizer.isWhale_of, Visualizer.btc_of, JS.geb.
    rewrite leb_true. split; intros; lra. }
  split; [exact H1|]. split.
  - rewrite H1. split.
    + intros Hv. unfold AudioEngine.tierOf. js_cmp. reflexivity.
    + intros Et. apply tierOf_range in Et. lra.
  - intros Hw. apply radius_of_saturates. apply H1 in Hw. lra.
Qed.

(** ** The hovered bubble *)

Section Hover.

Import Visualizer.

Lemma find_snoc {A : Type} (f : A -> bool) (l : list A) (a : A) :
  find f (l ++ [a])
  = match find f l with
    | Some x => Some x
    | None => if f a then Some a else None
    end.
Proof.
  induction l as [|h t IH]; simpl; [reflexivity|].
  destruct (f h); [reflexivity | exact IH].
Qed.

Lemma render_loop_hover (time : R) (mouse : R * R) (pre : list Bubble) :
  forall (post : list Bubble) (hover : option Bubble),
    snd (render_loop time mouse (List.length pre) (pre ++ post) hover)
    = match find (hovers mouse) (map (drift time) pre) with
      | Some b => Some b
      | None => hover
      end.
Proof.
  induction pre as [|b pre IH] using rev_ind; intros post hover.
  - reflexivity.
  - rewrite length_app, Nat.add_1_r, <- app_assoc. simpl app.
    simpl render_loop. rewrite nth_error_middle.
    rewrite map_app. simpl map. rewrite find_snoc.
    destruct (expired (drift time b)).
    + rewrite splice1_middle, IH.
      destruct (find (hovers mouse) (map (drift time) pre)); [reflexivity|].
      destruct (hovers mouse (drift time b)); reflexivity.
    + rewrite store_middle, IH.
      destruct (find (hovers mouse) (map (drift time) pre)); [reflexivity|].
      destruct (hovers mouse (drift time b)); reflexivity.
Qed.

End Hover.

(** X10: The bubble that a frame reports as hovered is the oldest bubble, the
    first in the array, that lies under the pointer after the motion of
    that frame, whether or not the same frame removes it; no bubble is
    reported while the pointer is off the canvas. *)
Theorem hovered_bubble_is_the_oldest (time : R) (mouse : R * R)
    (isOverCanvas : bool) (s : Visualizer.State) :
  snd (Visualizer.render time mouse isOverCanvas s)
  = if isOverCanvas
    then find (Visualizer.hovers mouse)
           (map (Visualizer.drift time) (Visualizer.bubbles s))
    else None.
Proof.
  unfold Visualizer.render.
  pose proof (render_loop_hover time mouse (Visualizer.bubbles s) [] None) as H.
  rewrite app_nil_r in H.
  destruct (Visualizer.render_loop time mouse
              (List.length (Visualizer.bubbles s)) (Visualizer.bubbles s) None)
    as [bs h].
  simpl in *. rewrite H.
  destruct isOverCanvas; [|reflexivity].
  destruct (find _ _); reflexivity.
Qed.

(** ** The life of a bubble *)

Section Lifetime.

Import Visualizer.

Lemma pass_life (time : R) (mouse : R * R) (bs : list Bubble) (L : R) :
  Forall (fun b => life b <= L) bs ->
  Forall (fun b => 0 < life b <= L - 0.0007) (render_bubbles time mouse bs).
Proof.
  intros H. rewrite Forall_forall in *. intros b' Hin.
  apply survivor_spec in Hin. destruct Hin as [[b [Hb ->]] [Hl _]].
  specialize (H b Hb). simpl in *. lra.
Qed.

Lemma passes_snoc (frames : list (R * (R * R))) (f : R * (R * R))
    (bs : list Bubble) :
  Frames.passes (frames ++ [f]) bs
  = render_bubbles (fst f) (snd f) (Frames.passes frames bs).
Proof. unfold Frames.passes. rewrite fold_left_app. reflexivity. Qed.

Lemma passes_life (frames : list (R * (R * R))) (bs : list Bubble) (L : R) :
  Forall (fun b => life b <= L) bs ->
  Forall (fun b => life b <= L - 0.0007 * INR (List.length frames))
    (Frames.passes frames bs)
  /\ (frames <> [] -> Forall (fun b => 0 < life b) (Frames.passes frames bs)).
Proof.
  intros H. induction frames as [|f frames [IH _]] using rev_ind.
  - split; [|intros C; contradiction]. simpl.
    eapply Forall_impl; [|exact H]. simpl. intros; lra.
  - rewrite passes_snoc, length_app, Nat.add_1_r, S_INR.
    pose proof (pass_life (fst f) (snd f) _ _ IH) as Hp.
    split; [|intros _]; (eapply Forall_impl; [|exact Hp]); simpl; intros; lra.
Qed.

Lemma nothing_both_ways {A : Type} (P Q : A -> Prop) (l : list A) :
  (forall a, P a -> Q a -> False) -> Forall P l -> Forall Q l -> l = [].
Proof.
  intros H HP HQ. destruct l as [|a l]; [reflexivity|].
  exfalso. apply (H a); [exact (Forall_inv HP) | exact (Forall_inv HQ)].
Qed.

End Lifetime.

(** X11: A bubble lives for at most 1429 frames: of bubbles with a life of at
    most 1, the life that every spawned bubble starts with, none is left
    after 1429 frames or more, wherever they are and however they move;
    before that their life falls by 0.0007 a frame. *)
Theorem bubbles_gone_after_1429_frames (frames : list (R * (R * R)))
    (bs : list Visualizer.Bubble) :
  Forall (fun b => Visualizer.life b <= 1) bs ->
  Forall (fun b => Visualizer.life b
                   <= 1 - 0.0007 * INR (List.length frames))
    (Frames.passes frames bs)
  /\ ((1429 <= List.length frames)%nat -> Frames.passes frames bs = []).
Proof.
  intros H. destruct (passes_life frames bs 1 H) as [Hle Hpos].
  split; [exact Hle|].
  intros Hn. assert (Hne : frames <> []).
  { intros ->. simpl in Hn. lia. }
  assert (Hlen : 1429 <= INR (List.length frames)).
  { apply le_INR in Hn. rewrite (INR_IZR_INZ 1429) in Hn. exact Hn. }
  apply (nothing_both_ways
           (fun b => Visualizer.life b
                     <= 1 - 0.0007 * INR (List.length frames))
           (fun b => 0 < Visualizer.life b)).
  - intros b H1 H2. lra.
  - exact Hle.
  - exact (Hpos Hne).
Qed.

(** ** The shared state over a session of the particle engine *)

Section EngineState.

Import Visualizer.

Lemma frames_run_snoc (ops : list Frames.Op) (op : Frames.Op) (s : State) :
  Frames.run (ops ++ [op]) s = Frames.apply (Frames.run ops s) op.
Proof. unfold Frames.run. rewrite fold_left_app. reflexivity. Qed.

Lemma frames_invariant (P : State -> Prop) (ok : Frames.Op -> Prop) :
  (forall s op, P s -> ok op -> P (Frames.apply s op)) ->
  forall ops s, P s -> Forall ok ops -> P (Frames.run ops s).
Proof.
  intros Hstep. induction ops as [|op ops IH]; intros s Hs Hok.
  - exact Hs.
  - inversion Hok; subst. simpl. apply IH; [apply Hstep|]; assumption.
Qed.

Lemma render_flashAlpha (time : R) (mouse : R * R) (over : bool) (s : State) :
  flashAlpha (fst (render time mouse over s))
  = if Rlt_dec 0 (flashAlpha s) then flashAlpha s - 0.008 else flashAlpha s.
Proof.
  unfold render.
  destruct (render_loop time mouse (List.length (bubbles s)) (bubbles s) None).
  reflexivity.
Qed.

Lemma render_avgFeeRate (time : R) (mouse : R * R) (over : bool) (s : State) :
  avgFeeRate (fst (render time mouse over s)) = avgFeeRate s.
Proof.
  unfold render.
  destruct (render_loop time mouse (List.length (bubbles s)) (bubbles s) None).
  reflexivity.
Qed.

Lemma addTransaction_flashAlpha (canvas : option Canvas) (d : SpawnDraws)
    (tx : Tx) (s : State) :
  flashAlpha (addTransaction canvas d tx s) = flashAlpha s.
Proof. destruct canvas; reflexivity. Qed.

Lemma frames_in_snoc (ops : list Frames.Op) (op : Frames.Op) :
  Frames.frames_in (ops ++ [op])
  = (Frames.frames_in ops
     + match op with Frames.Frame _ _ _ => 1 | _ => 0 end)%nat.
Proof.
  unfold Frames.frames_in. rewrite filter_app, length_app.
  destruct op; reflexivity.
Qed.

(** One frame of the fade, in closed form. *)
Lemma fade_step (k : nat) :
  (if Rlt_dec 0 (Rmax 0 (1 - 0.008 * INR k))
   then Rmax 0 (1 - 0.008 * INR k) - 0.008
   else Rmax 0 (1 - 0.008 * INR k))
  = Rmax 0 (1 - 0.008 * INR (k + 1)).
Proof.
  rewrite Nat.add_1_r, S_INR.
  destruct (Rlt_dec 0 (Rmax 0 (1 - 0.008 * INR k))) as [Hpos|Hzero].
  - assert (Hk : INR k < 125).
    { unfold Rmax in Hpos.
      destruct (Rle_dec 0 (1 - 0.008 * INR k)); lra. }
    assert (Hk1 : INR k + 1 <= 125).
    { rewrite <- S_INR. replace 125 with (INR 125) in *
        by (rewrite INR_IZR_INZ; reflexivity).
      apply le_INR. apply INR_lt in Hk. lia. }
    unfold Rmax.
    destruct (Rle_dec 0 (1 - 0.008 * INR k));
      destruct (Rle_dec 0 (1 - 0.008 * (INR k + 1))); lra.
  - unfold Rmax in *.
    destruct (Rle_dec 0 (1 - 0.008 * INR k));
      destruct (Rle_dec 0 (1 - 0.008 * (INR k + 1))); lra.
Qed.

Lemma apply_avgFeeRate (lo hi : R) (s : State) (op : Frames.Op) :
  lo <= avgFeeRate s <= hi -> Frames.feesWithin lo hi op ->
  lo <= avgFeeRate (Frames.apply s op) <= hi.
Proof.
  intros Hs Hop. destruct op as [canvas d tx | time mouse over |]; simpl.
  - destruct canvas; simpl in *; lra.
  - rewrite render_avgFeeRate. exact Hs.
  - exact Hs.
Qed.

Lemma congestionIntensity_bounds (s : State) :
  0 <= avgFeeRate s -> 0 <= Frames.congestionIntensity s <= 1.
Proof.
  intros H. unfold Frames.congestionIntensity, Rmin.
  destruct (Rle_dec 1 (avgFeeRate s / 300)); lra.
Qed.

End EngineState.

(** X12: After a block flash the overlay fades by 0.008 a frame and is over
    with the 125th frame, after which it no longer changes: with k frames
    rendered since the flash, and whatever particles were spawned in
    between, its alpha is max(0, 1 - 0.008 k). *)
Theorem flash_fades_in_125_frames (ops : list Frames.Op)
    (s : Visualizer.State) :
  Forall Frames.notFlash ops ->
  Visualizer.flashAlpha (Frames.run ops (Visualizer.flashBlock s))
  = Rmax 0 (1 - 0.008 * INR (Frames.frames_in ops)).
Proof.
  induction ops as [|op ops IH] using rev_ind; intros Hok.
  - simpl. unfold Rmax. destruct (Rle_dec 0 (1 - 0.008 * 0)); lra.
  - apply Forall_app in Hok. destruct Hok as [Hops Hop].
    apply Forall_inv in Hop.
    rewrite frames_run_snoc, frames_in_snoc.
    destruct op as [canvas d tx | time mouse over |]; simpl Frames.apply.
    + rewrite addTransaction_flashAlpha, Nat.add_0_r. apply IH, Hops.
    + rewrite render_flashAlpha, (IH Hops). apply fade_step.
    + contradiction.
Qed.

Lemma flash_fades_in_125_frames_witness :
  Visualizer.flashAlpha
    (Frames.run [Frames.Frame 0 (0, 0) false; Frames.Frame 1 (0, 0) true]
       (Visualizer.flashBlock Frames.initial))
  = Rmax 0 (1 - 0.008 * INR 2).
Proof.
  apply (flash_fades_in_125_frames
           [Frames.Frame 0 (0, 0) false; Frames.Frame 1 (0, 0) true]
           Frames.initial).
  repeat constructor.
Defined.

(** X13: The smoothed fee rate stays between the bounds of what it is fed:
    when it starts between lo and hi and every spawned transaction has a
    fee rate between lo and hi, it is between lo and hi after any session
    of spawns, frames and flashes.  With fee rates that are not negative
    the congestion intensity of a frame is between 0 and 1, and the red
    component of the background between 6 and 41. *)
Theorem average_fee_rate_stays_in_range (lo hi : R) (ops : list Frames.Op)
    (s : Visualizer.State) :
  lo <= Visualizer.avgFeeRate s <= hi ->
  Forall (Frames.feesWithin lo hi) ops ->
  lo <= Visualizer.avgFeeRate (Frames.run ops s) <= hi
  /\ (0 <= lo ->
      0 <= Frames.congestionIntensity (Frames.run ops s) <= 1
      /\ 6 <= fst (fst (Frames.bgColor (Frames.run ops s))) <= 41).
Proof.
  intros Hs Hops.
  assert (H : lo <= Visualizer.avgFeeRate (Frames.run ops s) <= hi).
  { apply (frames_invariant
             (fun s => lo <= Visualizer.avgFeeRate s <= hi)
             (Frames.feesWithin lo hi)); try assumption.
    intros s' op. apply apply_avgFeeRate. }
  split; [exact H|]. intros Hlo.
  pose proof (congestionIntensity_bounds (Frames.run ops s) ltac:(lra)) as Hc.
  split; [exact Hc|]. unfold Frames.bgColor. simpl. lra.
Qed.

Lemma average_fee_rate_stays_in_range_witness :
  1 <= Visualizer.avgFeeRate (Frames.run MoreSamples.shortSession Frames.initial)
    <= 5
  /\ (0 <= 1 ->
      0 <= Frames.congestionIntensity
             (Frames.run MoreSamples.shortSession Frames.initial) <= 1
      /\ 6 <= fst (fst (Frames.bgColor
                          (Frames.run MoreSamples.shortSession Frames.initial)))
           <= 41).
Proof.
  apply (average_fee_rate_stays_in_range 1 5 MoreSamples.shortSession
           Frames.initial).
  - simpl. lra.
  - repeat constructor; simpl; lra.
Defined.

Lemma bubbles_gone_after_1429_frames_witness :
  Forall (fun b => Visualizer.life b
                   <= 1 - 0.0007 * INR (List.length (repeat (0, (0, 0)) 1500)))
    (Frames.passes (repeat (0, (0, 0)) 1500) [MoreSamples.blob])
  /\ ((1429 <= List.length (repeat (0, (0, 0)) 1500))%nat ->
      Frames.passes (repeat (0, (0, 0)) 1500) [MoreSamples.blob] = []).
Proof.
  apply (bubbles_gone_after_1429_frames (repeat (0, (0, 0)) 1500)
           [MoreSamples.blob]).
  repeat constructor. simpl. lra.
Defined.

(** ** Live bubbles *)

Section Healthy.

Import Visualizer.

Lemma spawn_healthy (c : Canvas) (d : SpawnDraws) (tx : Tx) (s : State) :
  0 <= tx_value tx -> Frames.unitDraws d -> 0 <= height c ->
  exists b,
    bubbles (addTransaction (Some c) d tx s) = bubbles s ++ [b]
    /\ Frames.healthy b
    /\ y b - radius b * 1.2 > height c.
Proof.
  intros Hval [Hvy [Hvx Hx]] Hh. eexists. split; [reflexivity|].
  pose proof (radius_of_bounds (tx_value tx)) as Hr.
  unfold Frames.healthy. simpl.
  repeat split; try lra; destruct (isWhale_of (tx_value tx)); lra.
Qed.

Lemma drift_healthy (time : R) (b : Bubble) :
  Frames.healthy b -> survives (drift time b) = true ->
  Frames.healthy (drift time b).
Proof.
  intros [Hval [Hr [Hw [Hh [Hl [Ha [Hvy [Hvx Hy]]]]]]]] Hs.
  apply survives_spec in Hs. simpl in Hs.
  unfold Frames.healthy. simpl.
  repeat split; try assumption; try lra;
    unfold Rmin; destruct (Rle_dec 0.9 ((life b - 0.0007) * 3)); lra.
Qed.

Lemma apply_healthy (s : State) (op : Frames.Op) :
  Forall Frames.healthy (bubbles s) -> Frames.sane op ->
  Forall Frames.healthy (bubbles (Frames.apply s op)).
Proof.
  intros Hs Hop. destruct op as [canvas d tx | time mouse over |]; simpl.
  - destruct canvas as [c|]; [|exact Hs].
    destruct Hop as [Hval [Hd Hc]].
    destruct (spawn_healthy c d tx s Hval Hd Hc) as [b [-> [Hb _]]].
    apply Forall_app. split; [exact Hs|]. constructor; [exact Hb | constructor].
  - rewrite render_bubbles_of_render, render_bubbles_filter.
    rewrite Forall_forall in *. intros b' Hin.
    apply filter_In in Hin. destruct Hin as [Hin Hsv].
    apply in_map_iff in Hin. destruct Hin as [b [<- Hb]].
    apply drift_healthy; [apply Hs, Hb | exact Hsv].
  - exact Hs.
Qed.

End Healthy.

(** X14: With values that are not negative, draws from [0,1) and a canvas
    height that is not negative, every bubble that is alive at any point
    of a session has a value that is not negative, keeps the radius,
    whale flag and hue computed from its value and fee rate, has a life in
    (0, 1] and an alpha in (0, 0.9], rises, a whale by less than 0.3 a
    frame and the others by 0.4 to 1.9, drifts sideways by less than 0.35
    a frame without the sway, and has not left the canvas at the top; and
    a new bubble starts wholly below the canvas. *)
Theorem live_bubbles_are_healthy :
  (forall ops, Forall Frames.sane ops ->
     Forall Frames.healthy (Visualizer.bubbles (Frames.run ops Frames.initial)))
  /\ (forall c d tx s,
        0 <= Visualizer.tx_value tx ->
        Frames.unitDraws d -> 0 <= Visualizer.height c ->
        exists b,
          Visualizer.bubbles (Visualizer.addTransaction (Some c) d tx s)
          = Visualizer.bubbles s ++ [b]
          /\ Frames.healthy b
          /\ Visualizer.y b - Visualizer.radius b * 1.2 > Visualizer.height c)
  /\ (forall b, Frames.healthy b ->
        30 <= Visualizer.radius b <= 180
        /\ Visualizer.vy b < 0
        /\ (Visualizer.isWhale b = true -> Visualizer.radius b = 180)).
Proof.
  split; [|split].
  - intros ops Hops.
    apply (frames_invariant
             (fun s => Forall Frames.healthy (Visualizer.bubbles s))
             Frames.sane); try assumption.
    + intros s op. apply apply_healthy.
    + constructor.
  - exact spawn_healthy.
  - intros b [_ [Hr [Hw [_ [_ [_ [Hvy _]]]]]]].
    split; [rewrite Hr; apply radius_of_bounds|].
    split; [destruct (Visualizer.isWhale b); lra|].
    intros Hb. rewrite Hr. rewrite Hw in Hb.
    unfold Visualizer.isWhale_of, Visualizer.btc_of, JS.geb in Hb.
    apply leb_true in Hb. apply radius_of_saturates. lra.
Qed.

Lemma live_bubbles_are_healthy_witness :
  Forall Frames.healthy
    (Visualizer.bubbles (Frames.run MoreSamples.shortSession Frames.initial)).
Proof.
  apply (proj1 live_bubbles_are_healthy MoreSamples.shortSession).
  repeat constructor; simpl; lra.
Defined.

(** ** The outline of a bubble *)

Section Outline.

Import Visualizer.

Lemma noiseFactor_bounds (time : R) (b : Bubble) (j : nat) :
  -0.2 <= Frames.noiseFactor time b j <= 0.2.
Proof.
  unfold Frames.noiseFactor. cbv zeta.
  match goal with
  | |- _ <= sin ?a * _ + cos ?c * _ <= _ =>
      pose proof (SIN_bound a); pose proof (COS_bound c)
  end.
  lra.
Qed.

Lemma currentRadius_bounds (time : R) (b : Bubble) (j : nat) :
  0 <= radius b ->
  radius b * 0.8 <= Frames.currentRadius time b j <= radius b * 1.2.
Proof.
  intros Hr. unfold Frames.currentRadius.
  pose proof (noiseFactor_bounds time b j). nra.
Qed.

End Outline.

(** X15: The outline of a bubble stays between 0.8 and 1.2 of its radius from
    the centre, inside the gradient circle of 1.3 radii.  So when a bubble
    is removed because its vertical position plus three radii is below
    zero, every vertex of its outline is above the upper edge of the
    canvas, as is its gradient circle: what is removed there is out of
    sight. *)
Theorem outline_stays_near_radius (time : R) (b : Visualizer.Bubble)
    (j : nat) :
  0 <= Visualizer.radius b -> Visualizer.noiseOffsets b <> [] ->
  Visualizer.radius b * 0.8 <= Frames.currentRadius time b j
    <= Visualizer.radius b * 1.2
  /\ (fst (Frames.vertex time b j) - Visualizer.x b) ^ 2
     + (snd (Frames.vertex time b j) - Visualizer.y b) ^ 2
     = Frames.currentRadius time b j ^ 2
  /\ (Visualizer.y b + Visualizer.radius b * 3 < 0 ->
      snd (Frames.vertex time b j) < 0
      /\ Visualizer.y b + Visualizer.radius b * 1.3 < 0).
Proof.
  intros Hr _.
  pose proof (currentRadius_bounds time b j Hr) as Hc.
  split; [exact Hc|]. split.
  - unfold Frames.vertex. cbv zeta. simpl fst. simpl snd.
    match goal with
    | |- context [cos ?a] => pose proof (sin2_cos2 a) as Hsc
    end.
    unfold Rsqr in Hsc.
    match goal with
    | |- (_ + ?c * ?r - _) ^ 2 + (_ + ?s * ?r - _) ^ 2 = _ =>
        replace ((Visualizer.x b + c * r - Visualizer.x b) ^ 2
                 + (Visualizer.y b + s * r - Visualizer.y b) ^ 2)
          with ((s * s + c * c) * r ^ 2) by ring
    end.
    rewrite Hsc. ring.
  - intros Hy. split; [|lra].
    unfold Frames.vertex. cbv zeta. simpl snd.
    match goal with
    | |- _ + sin ?a * _ < 0 => pose proof (SIN_bound a)
    end.
    nra.
Qed.

Lemma outline_stays_near_radius_witness :
  Visualizer.radius MoreSamples.blob * 0.8
    <= Frames.currentRadius 2 MoreSamples.blob 1
    <= Visualizer.radius MoreSamples.blob * 1.2
  /\ (fst (Frames.vertex 2 MoreSamples.blob 1)
      - Visualizer.x MoreSamples.blob) ^ 2
     + (snd (Frames.vertex 2 MoreSamples.blob 1)
        - Visualizer.y MoreSamples.blob) ^ 2
     = Frames.currentRadius 2 MoreSamples.blob 1 ^ 2
  /\ (Visualizer.y MoreSamples.blob + Visualizer.radius MoreSamples.blob * 3 < 0 ->
      snd (Frames.vertex 2 MoreSamples.blob 1) < 0
      /\ Visualizer.y MoreSamples.blob
         + Visualizer.radius MoreSamples.blob * 1.3 < 0).
Proof.
  apply (outline_stays_near_radius 2 MoreSamples.blob 1).
  - simpl. lra.
  - discriminate.
Defined.

(** ** Starting the engine *)

Section Starting.

Import AudioEngine.

Lemma init_running (h : Setup.Host) (e : Engine) (c : AudioContext) :
  ctx e = Some c -> state c = running ->
  Setup.init h e = (mkResult e [] Returned, false).
Proof.
  intros Ec Es. unfold Setup.init. rewrite Ec, Es. reflexivity.
Qed.

Lemma init_not_running (h : Setup.Host) (e : Engine) :
  notRunning e -> Setup.init h e = Setup.build h e.
Proof.
  unfold Setup.init, notRunning. destruct (ctx e) as [c|]; [|reflexivity].
  destruct (state c); simpl; try reflexivity. intros H. contradiction.
Qed.

(** What [init] does when it gets to the chime, on the context [c] that
    it ends with. *)
Lemma init_builds (h : Setup.Host) (e : Engine) :
  notRunning e -> Setup.usable h ->
  exists c,
    state c = running
    /\ currentTime c = currentTime (Setup.fresh h)
    /\ Setup.init h e
       = (mkResult
            {| ctx := Some c; masterGain := Some 0.5; reverb := Some tt;
               delay := Some tt; delayFeedback := Some tt;
               isShakerStarted := true |}
            (mapi (chimeVoice (currentTime c)) 0 [196; 246.94; 293.66; 392])
            Returned,
          negb (isShakerStarted e)).
Proof.
  intros He Hh.
  rewrite (init_not_running h e He). unfold Setup.build.
  destruct Hh as [Hrun | [Hsus Hres]].
  - exists (Setup.fresh h). split; [exact Hrun|]. split; [reflexivity|].
    rewrite Hrun. unfold playStartupChime, Setup.startShaker. simpl.
    destruct (isShakerStarted e); reflexivity.
  - exists {| state := running; currentTime := currentTime (Setup.fresh h) |}.
    split; [reflexivity|]. split; [reflexivity|].
    rewrite Hsus, Hres. unfold playStartupChime, Setup.startShaker. simpl.
    destruct (isShakerStarted e); reflexivity.
Qed.

Lemma init_rejected (h : Setup.Host) (e : Engine) :
  notRunning e ->
  state (Setup.fresh h) = suspended -> Setup.resumes h = false ->
  Setup.init h e
  = (mkResult
       {| ctx := Some (Setup.fresh h); masterGain := Some 0.5;
          reverb := Some tt; delay := Some tt; delayFeedback := Some tt;
          isShakerStarted := isShakerStarted e |}
       [] Thrown,
     false).
Proof.
  intros He Hsus Hres. rewrite (init_not_running h e He).
  unfold Setup.build. rewrite Hsus, Hres. reflexivity.
Qed.

End Starting.

(** X17: [init] on an engine that is not running, with a context that runs or
    resumes, leaves the engine ready for [playTransaction], with the
    master gain at 0.5, plays the four notes of the chime and returns,
    and sets the shaker going unless an earlier call has.  Afterwards a
    further [init] does nothing: no second graph, chime or shaker.  When
    [resume()] is rejected, [init] throws, with no sound and no shaker,
    and the engine is left not running. *)
Theorem init_starts_the_engine_once (h : Setup.Host) (e : AudioEngine.Engine) :
  AudioEngine.notRunning e ->
  (Setup.usable h ->
   AudioEngine.ready (AudioEngine.engine (fst (Setup.init h e)))
   /\ AudioEngine.masterGain (AudioEngine.engine (fst (Setup.init h e)))
      = Some 0.5
   /\ AudioEngine.completion (fst (Setup.init h e)) = AudioEngine.Returned
   /\ map AudioEngine.frequency (AudioEngine.voices (fst (Setup.init h e)))
      = [196; 246.94; 293.66; 392]
   /\ AudioEngine.isShakerStarted (AudioEngine.engine (fst (Setup.init h e)))
      = true
   /\ snd (Setup.init h e) = negb (AudioEngine.isShakerStarted e)
   /\ forall h',
        Setup.init h' (AudioEngine.engine (fst (Setup.init h e)))
        = (AudioEngine.mkResult
             (AudioEngine.engine (fst (Setup.init h e))) []
             AudioEngine.Returned,
           false))
  /\ (AudioEngine.state (Setup.fresh h) = AudioEngine.suspended ->
      Setup.resumes h = false ->
      AudioEngine.completion (fst (Setup.init h e)) = AudioEngine.Thrown
      /\ AudioEngine.voices (fst (Setup.init h e)) = []
      /\ snd (Setup.init h e) = false
      /\ AudioEngine.notRunning (AudioEngine.engine (fst (Setup.init h e)))
      /\ AudioEngine.isShakerStarted
           (AudioEngine.engine (fst (Setup.init h e)))
         = AudioEngine.isShakerStarted e).
Proof.
  intros He. split.
  - intros Hh. destruct (init_builds h e He Hh) as [c [Hc [_ E]]].
    rewrite E. simpl. unfold AudioEngine.ready. simpl.
    repeat split; try assumption; try reflexivity.
    intros h'. apply (init_running h' _ c); [reflexivity | exact Hc].
  - intros Hsus Hres. rewrite (init_rejected h e He Hsus Hres). simpl.
    unfold AudioEngine.notRunning. simpl. rewrite Hsus.
    repeat split; try reflexivity. discriminate.
Qed.

Lemma init_starts_the_engine_once_witness :
  AudioEngine.ready
    (AudioEngine.engine (fst (Setup.init MoreSamples.host Samples.suspendedEngine))).
Proof.
  apply (proj1 (init_starts_the_engine_once MoreSamples.host
                  Samples.suspendedEngine ltac:(simpl; discriminate))).
  right. split; reflexivity.
Defined.

(** ** From the wire to the queue *)

Section Ingest.

Import Socket.




End Ingest.



(** ** The reconnecting socket *)

Section Reconnect.

Import Socket.

Lemma without_self (x : positive) : without x [x] = [].
Proof. unfold without. simpl. rewrite Pos.eqb_refl. reflexivity. Qed.

Lemma existsb_single (x y : positive) :
  existsb (Pos.eqb x) [y] = true -> x = y.
Proof.
  simpl. rewrite orb_false_r. apply Pos.eqb_eq.
Qed.

Lemma mounted_settled (newWs : option positive) (t : positive) :
  settled (mounted newWs t).
Proof.
  unfold settled, mounted, call, connect. simpl.
  destruct newWs as [s|]; simpl.
  - split; [reflexivity|]. split; [intros H; contradiction|].
    right. exists s. auto.
  - split; [reflexivity|]. split; [reflexivity | left; reflexivity].
Qed.

Lemma unmount_quiet (w : World) : settled w -> react w Unmounts = quiet.
Proof.
  destruct w as [[s0 t0] pend hk]. unfold settled. simpl.
  intros [Hp [Ht Hh]]. unfold call, disconnect, quiet. simpl.
  destruct t0 as [t0|]; subst pend; simpl.
  - rewrite (Ht ltac:(discriminate)), Pos.eqb_refl. simpl.
    destruct s0; reflexivity.
  - destruct Hh as [-> | [s1 [Hs ->]]].
    + destruct s0; reflexivity.
    + simpl in Hs. subst s0. simpl. rewrite Pos.eqb_refl. reflexivity.
Qed.

Lemma quiet_settled : settled quiet.
Proof.
  unfold settled, quiet. simpl.
  split; [reflexivity|]. split; [intros H; contradiction | left; reflexivity].
Qed.

Lemma react_settled (w : World) (ev : HostEvent) :
  settled w -> settled (react w ev).
Proof.
  intros Hw. destruct ev as [t newWs next | s next | s |];
    [| | | rewrite (unmount_quiet w Hw); apply quiet_settled];
    revert Hw; destruct w as [[s0 t0] pend hk]; unfold settled; simpl;
    intros [Hp [Ht Hh]].
  - destruct (existsb (Pos.eqb t) pend) eqn:Ein; [|simpl; auto].
    destruct t0 as [t0|]; subst pend; [|discriminate].
    apply existsb_single in Ein. subst t0.
    rewrite (Ht ltac:(discriminate)). rewrite without_self.
    unfold call, connect. simpl.
    destruct newWs as [s|]; simpl.
    + split; [reflexivity|]. split; [intros H; contradiction|].
      right. exists s. auto.
    + split; [reflexivity|]. split; [reflexivity | left; reflexivity].
  - destruct (existsb (Pos.eqb s) hk) eqn:Ein; [|simpl; auto].
    destruct Hh as [-> | [s1 [Hs ->]]]; [discriminate|].
    apply existsb_single in Ein. subst s1.
    destruct t0 as [t0|]; [specialize (Ht ltac:(discriminate)); discriminate|].
    subst pend. rewrite without_self.
    unfold call, onclose, scheduleReconnect. simpl.
    split; [reflexivity|]. split; [reflexivity | left; reflexivity].
  - unfold call, onerror. simpl.
    destruct s0; simpl; auto.
Qed.

Lemma life_settled (evs : list HostEvent) :
  forall w, settled w -> settled (life evs w).
Proof.
  induction evs as [|ev evs IH]; intros w Hw; [exact Hw|].
  simpl. apply IH, react_settled, Hw.
Qed.

Lemma quiet_stays (evs : list HostEvent) : life evs quiet = quiet.
Proof.
  induction evs as [|ev evs IH]; [reflexivity|].
  simpl. replace (react quiet ev) with quiet; [exact IH|].
  destruct ev; reflexivity.
Qed.

End Reconnect.

(** X19: Once the component has called [connect], whatever timers fire and
    sockets close or fail afterwards: at most one reconnection timer is
    pending, the one that [reconnectTimeout] holds; while it is pending no
    WebSocket has its close handler in place; and at most one WebSocket,
    the current one, has.  After [disconnect] no timer is pending and no
    handler is in place, so nothing reconnects any more. *)
Theorem socket_reconnects_one_at_a_time (newWs : option positive)
    (t : positive) (evs : list Socket.HostEvent) :
  Socket.settled (Socket.life evs (Socket.mounted newWs t))
  /\ (List.length (Socket.pending (Socket.life evs (Socket.mounted newWs t)))
      <= 1)%nat
  /\ (List.length (Socket.hooked (Socket.life evs (Socket.mounted newWs t)))
      <= 1)%nat
  /\ forall later,
       Socket.life later
         (Socket.react (Socket.life evs (Socket.mounted newWs t))
            Socket.Unmounts)
       = Socket.quiet.
Proof.
  pose proof (life_settled evs _ (mounted_settled newWs t)) as H.
  split; [exact H|].
  destruct H as [Hp [Ht Hh]] eqn:E. clear E.
  split; [rewrite Hp; destruct (Socket.reconnectTimeout _); simpl; lia|].
  split.
  - destruct Hh as [-> | [s [_ ->]]]; simpl; lia.
  - intros later. rewrite unmount_quiet; [apply quiet_stays|].
    repeat split; assumption.
Qed.

(** ** The block clock *)

Section Clock.

Import Header.

Lemma seconds_two_digits (n : nat) :
  (n < 60)%nat ->
  String.length (padStart2 (toString (Z.of_nat n))) = 2%nat
  /\ parseDigits (padStart2 (toString (Z.of_nat n))) = Some (Z.of_nat n).
Proof.
  intros H.
  do 60 (destruct n as [|n]; [vm_compute; split; reflexivity|]).
  lia.
Qed.

Lemma minutes_read_back (m : Z) :
  (0 <= m)%Z -> parseDigits (toString m) = Some m.
Proof.
  intros H. destruct m as [|p|p]; [reflexivity | | lia].
  unfold toString, parseDigits. simpl Z.to_int.
  unfold NilZero.string_of_int, NilZero.string_of_uint.
  destruct (Pos.to_uint p) eqn:E;
    [exfalso; exact (DecimalPos.Unsigned.to_uint_nonnil p E) | ..];
    rewrite <- E, NilEmpty.usu; simpl; f_equal;
    unfold Z.of_uint; rewrite DecimalPos.Unsigned.of_to; reflexivity.
Qed.

End Clock.

Lemma negative_seconds_unpadded (n : nat) :
  (0 < n < 60)%nat ->
  Header.padStart2 (Header.toString (- Z.of_nat n))
  = Header.toString (- Z.of_nat n).
Proof.
  intros [H0 H].
  destruct n as [|n]; [lia|].
  do 59 (destruct n as [|n]; [vm_compute; reflexivity|]).
  lia.
Qed.

(** X20: For a whole number of seconds from 0 to 2^53 - 1 the block clock
    shows the whole minutes, a colon and the seconds below 60 in exactly
    two digits, and both numbers read back from the text.  For a negative
    whole number of seconds down to -(2^53 - 1), as when a block is
    stamped ahead of the local clock, that is not a whole number of
    minutes, both parts carry a minus sign, the seconds are not padded,
    and the two add up to a minute less than the time shown. *)
Theorem block_clock_format (total : Z) :
  ((0 <= total <= 9007199254740991)%Z ->
   exists ss,
     Header.formatTime total
     = (Header.toString (total / 60) ++ ":" ++ ss)%string
     /\ String.length ss = 2%nat
     /\ Header.parseDigits ss = Some (total mod 60)%Z
     /\ Header.parseDigits (Header.toString (total / 60)) = Some (total / 60)%Z
     /\ (0 <= total mod 60 < 60)%Z
     /\ total = (60 * (total / 60) + total mod 60)%Z)
  /\ ((-9007199254740991 <= total < 0)%Z -> Z.rem total 60 <> 0%Z ->
      Header.formatTime total
      = (Header.toString (total / 60) ++ ":"
         ++ Header.toString (Z.rem total 60))%string
      /\ (total / 60 < 0)%Z /\ (-60 < Z.rem total 60 < 0)%Z
      /\ (60 * (total / 60) + Z.rem total 60 = total - 60)%Z).
Proof.
  split.
  - intros [H _]. exists (Header.padStart2 (Header.toString (total mod 60))).
    assert (Hm : (0 <= total mod 60 < 60)%Z) by (apply Z.mod_pos_bound; lia).
    assert (Hn : (Z.to_nat (total mod 60) < 60)%nat) by lia.
    destruct (seconds_two_digits (Z.to_nat (total mod 60)) Hn)
      as [Hlen Hparse].
    rewrite Z2Nat.id in Hlen, Hparse by lia.
    split.
    { unfold Header.formatTime. cbv zeta.
      rewrite Z.rem_mod_nonneg by lia. reflexivity. }
    split; [exact Hlen|]. split; [exact Hparse|].
    split; [apply minutes_read_back, Z.div_pos; lia|].
    split; [exact Hm|]. apply Z.div_mod. lia.
  - intros [_ Hneg] Hrem.
    assert (Hr : (-60 < Z.rem total 60 < 0)%Z
                 /\ (total / 60 < 0)%Z
                 /\ (60 * (total / 60) + Z.rem total 60 = total - 60)%Z).
    { Z.to_euclidean_division_equations. lia. }
    destruct Hr as [Hr [Hd Hsum]].
    split.
    { unfold Header.formatTime. cbv zeta.
      assert (Hn : (0 < Z.to_nat (- Z.rem total 60) < 60)%nat) by lia.
      pose proof (negative_seconds_unpadded (Z.to_nat (- Z.rem total 60)) Hn)
        as Hpad.
      rewrite Z2Nat.id, Z.opp_involutive in Hpad by lia.
      rewrite Hpad. reflexivity. }
    split; [exact Hd|]. split; [exact Hr | exact Hsum].
Qed.

Lemma block_clock_format_witness :
  exists ss,
    Header.formatTime 125
    = (Header.toString (125 / 60) ++ ":" ++ ss)%string
    /\ String.length ss = 2%nat
    /\ Header.parseDigits ss = Some (125 mod 60)%Z
    /\ Header.parseDigits (Header.toString (125 / 60)) = Some (125 / 60)%Z
    /\ (0 <= 125 mod 60 < 60)%Z
    /\ 125%Z = (60 * (125 / 60) + 125 mod 60)%Z.
Proof.
  apply (proj1 (block_clock_format 125)). lia.
Defined.

(** ** Draining the queue *)

Section Draining.

Import App.

Lemma tick_all_snoc (ds : list (bool * Draws)) (md : bool * Draws) (s : State) :
  Session.tick_all (ds ++ [md]) s
  = (next (processNextTransaction (fst md) (snd md)
             (fst (Session.tick_all ds s))),
     snd (Session.tick_all ds s)
     ++ calls (processNextTransaction (fst md) (snd md)
                 (fst (Session.tick_all ds s)))).
Proof. unfold Session.tick_all. rewrite fold_left_app. reflexivity. Qed.

Lemma skipn_head {A : Type} (n : nat) (l : list A) :
  (n < List.length l)%nat ->
  exists a, skipn n l = a :: skipn (S n) l
            /\ firstn (S n) l = firstn n l ++ [a].
Proof.
  revert l. induction n as [|n IH]; intros [|h t] H; simpl in H; try lia.
  - exists h. split; reflexivity.
  - destruct (IH t ltac:(lia)) as [a [E1 E2]]. exists a. split.
    + exact E1.
    + change (firstn (S (S n)) (h :: t)) with (h :: firstn (S n) t).
      rewrite E2. reflexivity.
Qed.

Lemma notes_app (cs cs' : list Call) :
  Session.notes (cs ++ cs') = Session.notes cs ++ Session.notes cs'.
Proof. unfold Session.notes. apply flat_map_app. Qed.

End Draining.

(** X4: While transactions wait, ticks whose draw is below 0.6 take one
    transaction each, from the front: after n such ticks on a queue of at
    least n entries the queue has lost its first n entries, and their
    values have been handed to [playTransaction] in the order in which
    they were queued, with no ghost cue in between. *)
Theorem ticks_drain_in_order (ds : list (bool * App.Draws)) (s : App.State) :
  Forall (fun md => App.rnd_play (snd md) < 0.6) ds ->
  (List.length ds <= List.length (App.txQueue s))%nat ->
  App.txQueue (fst (Session.tick_all ds s))
    = skipn (List.length ds) (App.txQueue s)
  /\ Session.notes (snd (Session.tick_all ds s))
     = map (fun tx => JS.or_else (App.q_value tx) 0)
         (firstn (List.length ds) (App.txQueue s)).
Proof.
  induction ds as [|md ds IH] using rev_ind; intros Hd Hlen.
  - split; reflexivity.
  - apply Forall_app in Hd. destruct Hd as [Hds Hmd].
    apply Forall_inv in Hmd. rewrite length_app in Hlen. simpl in Hlen.
    destruct (IH Hds ltac:(lia)) as [Hq Hn].
    rewrite tick_all_snoc, length_app, Nat.add_1_r. simpl fst. simpl snd.
    destruct (skipn_head (List.length ds) (App.txQueue s) ltac:(lia))
      as [tx [Esk Efn]].
    rewrite Esk in Hq.
    pose proof (tick_pops (fst md) (snd md) _ tx _ Hq Hmd) as Hpop.
    split; [exact Hpop|].
    rewrite notes_app, Hn, Efn, map_app. f_equal.
    destruct (tick_calls (fst md) (snd md) (fst (Session.tick_all ds s)))
      as [[Hsame _] | [tx' [rest [Hs [_ Hc]]]]].
    + exfalso. rewrite Hpop, Hq in Hsame.
      exact (pop_changes_queue _ _ Hsame).
    + rewrite Hq in Hs. injection Hs as <- <-. rewrite Hc.
      destruct (fst md); reflexivity.
Qed.

Lemma ticks_drain_in_order_witness :
  App.txQueue
    (fst (Session.tick_all [(true, Samples.alwaysPlay); (false, Samples.alwaysPlay)]
            (Samples.backlog 5)))
    = skipn 2 (App.txQueue (Samples.backlog 5))
  /\ Session.notes
       (snd (Session.tick_all
               [(true, Samples.alwaysPlay); (false, Samples.alwaysPlay)]
               (Samples.backlog 5)))
     = map (fun tx => JS.or_else (App.q_value tx) 0)
         (firstn 2 (App.txQueue (Samples.backlog 5))).
Proof.
  apply (ticks_drain_in_order
           [(true, Samples.alwaysPlay); (false, Samples.alwaysPlay)]
           (Samples.backlog 5)).
  - repeat constructor; simpl; lra.
  - simpl. lia.
Defined.

(** ** How far a whale rises *)

Section Rising.

Import Visualizer.

Lemma drifted_snoc (frames : list (R * (R * R))) (f : R * (R * R))
    (b : Bubble) :
  Frames.drifted (frames ++ [f]) b = drift (fst f) (Frames.drifted frames b).
Proof. unfold Frames.drifted. rewrite fold_left_app. reflexivity. Qed.

(** A frame moves a bubble by its vertical speed and takes 0.0007 of its
    life; radius, speed and whale flag stay. *)
Lemma drifted_fields (frames : list (R * (R * R))) (b : Bubble) :
  y (Frames.drifted frames b) = y b + INR (List.length frames) * vy b
  /\ life (Frames.drifted frames b)
     = life b - 0.0007 * INR (List.length frames)
  /\ radius (Frames.drifted frames b) = radius b
  /\ vy (Frames.drifted frames b) = vy b
  /\ isWhale (Frames.drifted frames b) = isWhale b.
Proof.
  induction frames as [|f frames [Hy [Hl [Hr [Hv Hw]]]]] using rev_ind.
  - simpl. repeat split; lra.
  - rewrite drifted_snoc, length_app, Nat.add_comm. simpl List.length.
    rewrite S_INR. simpl. rewrite Hy, Hl, Hr, Hv, Hw.
    repeat split; lra.
Qed.

(** A rising bubble that has life left after the last frame, and is not
    above the canvas by three radii then, has been kept by every frame. *)
Lemma passes_alive (frames : list (R * (R * R))) (b : Bubble) :
  vy b <= 0 ->
  0 < life b - 0.0007 * INR (List.length frames) ->
  0 <= y b + INR (List.length frames) * vy b + radius b * 3 ->
  Frames.passes frames [b] = [Frames.drifted frames b].
Proof.
  intros Hv. induction frames as [|f frames IH] using rev_ind; intros Hl Hy.
  - reflexivity.
  - rewrite length_app, Nat.add_comm in Hl, Hy. simpl List.length in Hl, Hy.
    rewrite S_INR in Hl, Hy.
    pose proof (pos_INR (List.length frames)) as Hn.
    rewrite passes_snoc, IH by nra.
    rewrite render_bubbles_filter. simpl map. rewrite <- drifted_snoc.
    assert (Hs : survives (Frames.drifted (frames ++ [f]) b) = true).
    { apply survives_spec.
      destruct (drifted_fields (frames ++ [f]) b) as [Ey [El [Er _]]].
      rewrite Ey, El, Er, length_app, Nat.add_comm. simpl List.length.
      rewrite S_INR. split; lra. }
    simpl. rewrite Hs. reflexivity.
Qed.

(** After 1429 frames the life of a bubble has run out. *)
Lemma passes_dead (frames : list (R * (R * R))) (b : Bubble) :
  life b <= 1 -> (1429 <= List.length frames)%nat ->
  Frames.passes frames [b] = [].
Proof.
  intros Hl Hn.
  assert (H0 : Forall (fun b => life b <= 1) [b]) by (constructor; auto).
  destruct (passes_life frames [b] 1 H0) as [Hle Hpos].
  assert (Hne : frames <> []) by (intros ->; simpl in Hn; lia).
  specialize (Hpos Hne).
  destruct (Frames.passes frames [b]) as [|b' rest]; [reflexivity|].
  apply Forall_inv in Hle. apply Forall_inv in Hpos.
  apply le_INR in Hn. rewrite (INR_IZR_INZ 1429) in Hn. simpl Z.of_nat in Hn.
  exfalso. lra.
Qed.

End Rising.

(** X16: A whale never gets far, and it is never removed for leaving the
    canvas at the top.  On a canvas whose height is not negative the
    bubble of a transaction of 1 BTC or more has radius 180 and starts
    360 below the lower edge, rising by at least 0.1 and by less than 0.3
    a frame.  After n frames without removal its centre is n times that
    speed higher and its life is 1 - 0.0007 n.  For every n up to 1428
    the bubble is still in the array after the n frames, with life left
    and its centre lower than 68.58 above the lower edge, so its centre
    plus three radii is more than 471 and the test of the loop for a
    bubble that has left at the top is false; after 1429 frames or more
    it is gone, removed because its life has run out. *)
Theorem whales_stay_near_the_bottom (c : Visualizer.Canvas)
    (d : Visualizer.SpawnDraws) (tx : Visualizer.Tx) (s : Visualizer.State)
    (frames : list (R * (R * R))) :
  Frames.unitDraws d -> 0 <= Visualizer.height c ->
  100000000 <= Visualizer.tx_value tx ->
  exists b,
    Visualizer.bubbles (Visualizer.addTransaction (Some c) d tx s)
    = Visualizer.bubbles s ++ [b]
    /\ Visualizer.isWhale b = true
    /\ Visualizer.radius b = 180
    /\ Visualizer.y b = Visualizer.height c + 360
    /\ -0.3 < Visualizer.vy b <= -0.1
    /\ Visualizer.life b = 1
    /\ Visualizer.y (Frames.drifted frames b)
       = Visualizer.y b + INR (List.length frames) * Visualizer.vy b
    /\ Visualizer.life (Frames.drifted frames b)
       = 1 - 0.0007 * INR (List.length frames)
    /\ Visualizer.radius (Frames.drifted frames b) = 180
    /\ ((List.length frames <= 1428)%nat ->
        Frames.passes frames [b] = [Frames.drifted frames b]
        /\ 0 < Visualizer.life (Frames.drifted frames b)
        /\ Visualizer.y (Frames.drifted frames b)
           > Visualizer.height c - 68.58
        /\ Visualizer.y (Frames.drifted frames b)
           + Visualizer.radius (Frames.drifted frames b) * 3 > 471)
    /\ ((1429 <= List.length frames)%nat -> Frames.passes frames [b] = []).
Proof.
  intros [Hvy _] Hh Hv.
  assert (Hw : Visualizer.isWhale_of (Visualizer.tx_value tx) = true).
  { unfold Visualizer.isWhale_of, Visualizer.btc_of, JS.geb.
    apply leb_true. lra. }
  assert (Hr : Visualizer.radius_of (Visualizer.tx_value tx) = 180)
    by (apply radius_of_saturates; lra).
  eexists. split; [reflexivity|].
  match goal with
  | |- Visualizer.isWhale ?b = true /\ _ => set (b0 := b)
  end.
  assert (Ew : Visualizer.isWhale b0 = true) by exact Hw.
  assert (Er : Visualizer.radius b0 = 180) by exact Hr.
  assert (Ey : Visualizer.y b0 = Visualizer.height c + 360)
    by (unfold b0; simpl; rewrite Hr; lra).
  assert (Ev : -0.3 < Visualizer.vy b0 <= -0.1)
    by (unfold b0; simpl; rewrite Hw; lra).
  assert (El : Visualizer.life b0 = 1) by (unfold b0; simpl; lra).
  destruct (drifted_fields frames b0) as [Dy [Dl [Dr _]]].
  rewrite El in Dl. rewrite Er in Dr.
  repeat (split; [assumption|]).
  split.
  - intros Hn. apply le_INR in Hn. rewrite (INR_IZR_INZ 1428) in Hn.
    simpl Z.of_nat in Hn.
    pose proof (pos_INR (List.length frames)) as H0.
    split.
    + apply passes_alive; [lra | rewrite El; lra | rewrite Ey, Er; nra].
    + rewrite Dy, Dl, Dr, Ey. repeat split; nra.
  - intros Hn. apply passes_dead; [rewrite El; lra | exact Hn].
Qed.

Lemma whales_stay_near_the_bottom_witness :
  exists b,
    Visualizer.bubbles
      (Visualizer.addTransaction (Some MoreSamples.canvas) MoreSamples.draws
         MoreSamples.whaleTx Frames.initial)
    = Visualizer.bubbles Frames.initial ++ [b]
    /\ Frames.passes (repeat (0, (0, 0)) 900) [b]
       = [Frames.drifted (repeat (0, (0, 0)) 900) b]
    /\ Visualizer.y (Frames.drifted (repeat (0, (0, 0)) 900) b)
       > Visualizer.height MoreSamples.canvas - 68.58.
Proof.
  destruct (whales_stay_near_the_bottom MoreSamples.canvas MoreSamples.draws
              MoreSamples.whaleTx Frames.initial (repeat (0, (0, 0)) 900))
    as [b [Hb [_ [_ [_ [_ [_ [_ [_ [_ [Halive _]]]]]]]]]]].
  - unfold Frames.unitDraws. simpl. lra.
  - simpl. lra.
  - simpl. lra.
  - exists b. split; [exact Hb|].
    destruct Halive as [Hp [_ [Hy _]]]; [rewrite repeat_length; lia|].
    split; [exact Hp | exact Hy].
Defined.
